(** * tools/build_images.py: the image build script, embedded and verified

    The script walks a fixed list of [ImageJob]s; each job is downloaded,
    archived untouched, and then either copied (PNG) or decoded, normalised,
    resized and re-encoded as WebP at several widths.

    The embedding follows the Python text function by function.

    - Python [str] is [string] (a byte string); [str.lower] is modelled on
      ASCII letters, which is what URLs are made of.
    - Python [int] is [Z].  Python [float] is IEEE binary64, taken from the
      Standard Library's [SpecFloat] at precision 53 and [emax] 1024.
    - [pathlib.Path] is a root and a list of components, joined and
      normalised as [PurePosixPath] does.
    - Exceptions are values of [Exc]; a computation returns [Ok] or [Raise].
    - Side effects (files, directories, the two output streams) live in a
      [World] that is threaded through the pipeline and survives a raise.
    - The network, the operating system's refusals and Pillow's codecs are
      parameters of the development: nothing is assumed of them beyond the
      shape of their results. *)

From Stdlib Require Import ZArith String Ascii List Bool Lia.
From Stdlib Require Import Floats.SpecFloat.
From stdpp Require Import gmap strings list pretty.

Open Scope string_scope.
Open Scope list_scope.
Open Scope Z_scope.

(* ===================================================================== *)
(** ** Exceptions and results *)
(* ===================================================================== *)

(** A raised exception: its class name and [str(exc)]. Only subclasses of
    [Exception] are represented, which is what [except Exception] catches. *)
Record Exc := mkExc { exc_type : string; exc_str : string }.

Inductive result (A : Type) : Type :=
| Ok (a : A)
| Raise (e : Exc).
Arguments Ok {A} a.
Arguments Raise {A} e.

Definition rbind {A B} (r : result A) (k : A -> result B) : result B :=
  match r with
  | Ok a => k a
  | Raise e => Raise e
  end.

Notation "'try!' x ':=' c 'in' k" := (rbind c (fun x => k))
  (at level 10, x name, c at level 100, k at level 200).

(* ===================================================================== *)
(** ** Python strings *)
(* ===================================================================== *)

Module Str.

(** [s.split(sep)] for a one-character separator: never empty, and
    [sep.join] of the pieces gives [s] back. *)
Fixpoint split (sep : ascii) (s : string) : list string :=
  match s with
  | EmptyString => [EmptyString]
  | String c s' =>
      if Ascii.eqb c sep then EmptyString :: split sep s'
      else match split sep s' with
           | [] => [String c EmptyString]
           | p :: ps => String c p :: ps
           end
  end.

(** [pieces[0]] and [pieces[-1]] on the (non-empty) result of [split]. *)
Definition first (l : list string) : string := hd EmptyString l.
Definition final (l : list string) : string := List.last l EmptyString.

Definition lower_ascii (c : ascii) : ascii :=
  let n := N_of_ascii c in
  if ((65 <=? n) && (n <=? 90))%N then ascii_of_N (n + 32) else c.

(** [s.lower()] *)
Fixpoint lower (s : string) : string :=
  match s with
  | EmptyString => EmptyString
  | String c s' => String (lower_ascii c) (lower s')
  end.

(** [s.lstrip(c)] for a one-character set. *)
Fixpoint lstrip (c : ascii) (s : string) : string :=
  match s with
  | EmptyString => EmptyString
  | String d s' => if Ascii.eqb d c then lstrip c s' else s
  end.

(** [c in s] for a character. *)
Fixpoint contains (c : ascii) (s : string) : bool :=
  match s with
  | EmptyString => false
  | String d s' => Ascii.eqb d c || contains c s'
  end.

(** [sep.join(l)] *)
Fixpoint join (sep : string) (l : list string) : string :=
  match l with
  | [] => EmptyString
  | [x] => x
  | x :: rest => x +:+ sep +:+ join sep rest
  end.

End Str.

(* ===================================================================== *)
(** ** pathlib: pure POSIX paths *)
(* ===================================================================== *)

(** A parsed path: [root] is one of the three POSIX anchors (none, one
    slash, exactly two slashes) and [parts] are the components after it. *)
Record Path := mkPath { root : string; parts : list string }.

#[global] Instance Path_eq_dec : EqDecision Path.
Proof. solve_decision. Defined.

#[global] Instance Path_countable : Countable Path :=
  inj_countable' (fun p => (root p, parts p)) (fun rp => mkPath (fst rp) (snd rp))
                 (fun p => match p with mkPath _ _ => eq_refl end).

Module PurePath.

(** The POSIX flavour's [splitroot]: the leading slashes are stripped;
    exactly two of them are kept as a root of their own, any other number
    counts as one. *)
Definition splitroot (s : string) : string * string :=
  let stripped := Str.lstrip "/" s in
  let n := (String.length s - String.length stripped)%nat in
  if Nat.eqb n 0 then ("", s)
  else if Nat.eqb n 2 then ("//", stripped)
  else ("/", stripped).

(** A component survives parsing unless it is empty or a single dot. *)
Definition keeps (x : string) : bool :=
  negb (String.eqb x "") && negb (String.eqb x ".").

Definition parse_parts (rel : string) : list string :=
  List.filter keeps (Str.split "/" rel).

Definition parse (s : string) : Path :=
  let (r, rel) := splitroot s in mkPath r (parse_parts rel).

(** [p / s]: a rooted segment replaces [p], any other one is appended. *)
Definition joinpath (p : Path) (s : string) : Path :=
  let q := parse s in
  if String.eqb (root q) "" then mkPath (root p) (parts p ++ parts q) else q.

(** [p.parent] *)
Definition parent (p : Path) : Path := mkPath (root p) (removelast (parts p)).

(** [str(p)] *)
Definition to_str (p : Path) : string :=
  match root p, parts p with
  | EmptyString, [] => "."
  | r, ps => r +:+ Str.join "/" ps
  end.

Fixpoint is_prefix (a b : list string) : bool :=
  match a, b with
  | [], _ => true
  | x :: a', y :: b' => String.eqb x y && is_prefix a' b'
  | _ :: _, [] => false
  end.

(** [p.relative_to(other)]: purely lexical; [ValueError] when [other] is
    not an ancestor of [p]. *)
Definition relative_to (p other : Path) : result Path :=
  if String.eqb (root p) (root other) && is_prefix (parts other) (parts p)
  then Ok (mkPath "" (drop (length (parts other)) (parts p)))
  else Raise (mkExc "ValueError"
                (to_str p +:+ " is not in the subpath of " +:+ to_str other)).

(** [p] sits directly inside directory [d]. *)
Definition is_child_of (d p : Path) : Prop :=
  exists name, p = mkPath (root d) (parts d ++ [name]).

End PurePath.

Notation "p // s" := (PurePath.joinpath p s) (at level 40, left associativity).

(* ===================================================================== *)
(** ** Python numbers: int / int, int * float, round *)
(* ===================================================================== *)

Module PyNum.

Definition prec : Z := 53.
Definition emax : Z := 1024.

Definition OverflowError (msg : string) : Exc := mkExc "OverflowError" msg.

Definition is_infinite (x : spec_float) : bool :=
  match x with S754_infinity _ => true | _ => false end.

(** [float(n)]: nearest double, ties to even; too large an int raises. *)
Definition int_to_float (n : Z) : result spec_float :=
  let x := binary_normalize prec emax n 0 false in
  if is_infinite x then Raise (OverflowError "int too large to convert to float")
  else Ok x.

(** [a / b] on ints: the exact quotient rounded once to the nearest double,
    ties to even. *)
Definition int_true_divide (a b : Z) : result spec_float :=
  if b =? 0 then Raise (mkExc "ZeroDivisionError" "division by zero")
  else
    let negate := xorb (a <? 0) (b <? 0) in
    if a =? 0 then Ok (S754_zero negate)
    else
      let '(q, e, l) := SFdiv_core_binary prec emax (Z.abs a) 0 (Z.abs b) 0 in
      let x := binary_round_aux prec emax negate q e l in
      if is_infinite x
      then Raise (OverflowError "integer division result too large for a float")
      else Ok x.

(** [n * x] with [n] an int and [x] a float. *)
Definition int_mul_float (n : Z) (x : spec_float) : result spec_float :=
  try! y := int_to_float n in Ok (SFmul prec emax y x).

(** Round-half-to-even of [m / d] for [d > 0]. *)
Definition round_half_even_div (m d : Z) : Z :=
  let q := m / d in
  let r := m mod d in
  match 2 * r ?= d with
  | Lt => q
  | Gt => q + 1
  | Eq => if Z.even q then q else q + 1
  end.

(** [round(x)] with one argument: the nearest int, ties to even. *)
Definition round (x : spec_float) : result Z :=
  match x with
  | S754_zero _ => Ok 0
  | S754_infinity _ => Raise (OverflowError "cannot convert float infinity to integer")
  | S754_nan => Raise (mkExc "ValueError" "cannot convert float NaN to integer")
  | S754_finite s m e =>
      let n := if 0 <=? e then Z.pos m * 2 ^ e
               else round_half_even_div (Z.pos m) (2 ^ (- e)) in
      Ok (if s then - n else n)
  end.

(** [x] is zero or a finite double below [2^K] in magnitude whose
    exponent is at most [E]. *)
Definition small (K E : Z) (x : spec_float) : Prop :=
  match x with
  | S754_zero _ => True
  | S754_finite _ m e => Z.pos (digits2_pos m) + e <= K /\ e <= E
  | _ => False
  end.

End PyNum.

(* ===================================================================== *)
(** ** The world the script acts on *)
(* ===================================================================== *)

Definition bytes := list Byte.byte.

Record World := mkWorld {
  files : gmap Path bytes;     (* regular files and their contents *)
  dirs : gset Path;            (* directories known to exist *)
  stdout : list string;        (* lines printed, oldest first *)
  stderr : list string
}.

(** A computation with side effects that may raise; the world it leaves
    behind is kept in both cases. *)
Definition M (A : Type) : Type := World -> result A * World.

Definition ret {A} (a : A) : M A := fun σ => (Ok a, σ).

Definition bind {A B} (c : M A) (k : A -> M B) : M B :=
  fun σ => match c σ with
           | (Ok a, σ') => k a σ'
           | (Raise e, σ') => (Raise e, σ')
           end.

Definition lift {A} (r : result A) : M A := fun σ => (r, σ).

Notation "'run!' x ':=' c 'in' k" := (bind c (fun x => k))
  (at level 10, x name, c at level 100, k at level 200).

(** [print(line)] and [print(line, file=sys.stderr)] *)
Definition print (line : string) : M unit :=
  fun σ => (Ok tt, mkWorld (files σ) (dirs σ) (stdout σ ++ [line]) (stderr σ)).

Definition eprint (line : string) (σ : World) : World :=
  mkWorld (files σ) (dirs σ) (stdout σ) (stderr σ ++ [line]).

(** What is stored at [p] becomes [v] ([None]: no file there). *)
Definition set_file (p : Path) (v : option bytes) (σ : World) : World :=
  mkWorld (partial_alter (fun _ => v) p (files σ)) (dirs σ) (stdout σ) (stderr σ).

(** [p] and every ancestor of [p]. *)
Definition lineage (p : Path) : list Path :=
  map (fun k => mkPath (root p) (take k (parts p)))
      (seq 0 (S (length (parts p)))).

Definition add_dirs (p : Path) (σ : World) : World :=
  mkWorld (files σ) (list_to_set (lineage p) ∪ dirs σ) (stdout σ) (stderr σ).

(* ===================================================================== *)
(** ** The job descriptor *)
(* ===================================================================== *)

Record ImageJob := mkImageJob {
  url : string;
  out_dir : Path;
  base_name : string;
  widths : list Z;
  format : string;
  quality : Z
}.

(** The dataclass defaults: [format = "webp"], [quality = 78]. *)
Definition default_format : string := "webp".
Definition default_quality : Z := 78.

(* ===================================================================== *)
(** ** Bitmaps and the environment *)
(* ===================================================================== *)

(** A decoded bitmap; pixel storage is opaque. *)
Record Image {Pix : Type} := mkImage {
  width : Z;
  height : Z;
  mode : string;
  bands : list string;   (* what [getbands()] returns *)
  pixels : Pix
}.
Arguments Image : clear implicits.
Arguments mkImage {Pix} width height mode bands pixels.

(** Everything the script does not define itself. *)
Record Env {Pix : Type} := mkEnv {
  (** The project root, [Path(__file__).resolve().parents[1]]. *)
  ROOT : Path;
  (** [urlopen(req, timeout=60).read()]: the body, or whatever the
      transport raises. The answer may depend on all that happened before. *)
  urlopen_read : World -> string -> result bytes;
  (** The operating system refusing to create a directory. *)
  mkdir_fault : World -> Path -> option Exc;
  (** The operating system refusing to open or to finish writing a file:
      the exception, and what is then found at the path. *)
  write_fault : World -> Path -> option (Exc * option bytes);
  (** [Image.open(io.BytesIO(blob))] followed by [im.load()]. *)
  Image_open : bytes -> result (Image Pix);
  (** Pillow's mode conversion: band names and pixels of the result. *)
  convert_data : Image Pix -> string -> result (list string * Pix);
  (** Pillow's Lanczos resampler for a target size; it may refuse
      (non-positive size, out of memory). *)
  lanczos : Image Pix -> Z -> Z -> result Pix;
  (** Pillow's WebP encoder at [method=6], [optimize=True]. *)
  webp_encode : Image Pix -> Z -> result bytes;
  (** What a failed encoding leaves at the target, given what was there. *)
  encode_residue : option bytes -> option bytes
}.
Arguments Env : clear implicits.
Arguments mkEnv {Pix}.

(* ===================================================================== *)
(** ** The pipeline *)
(* ===================================================================== *)

Section Pipeline.

Context {Pix : Type} (E : Env Pix).

(** *** Pillow and pathlib calls *)

(** [img.convert(m)]: same size, mode [m]. *)
Definition Image_convert (img : Image Pix) (m : string) : result (Image Pix) :=
  try! bp := convert_data E img m in
  Ok (mkImage (width img) (height img) m (fst bp) (snd bp)).

(** [img.resize((w, h), resample=LANCZOS)]: a bitmap of the requested size
    in the mode of the source. *)
Definition Image_resize (img : Image Pix) (w h : Z) : result (Image Pix) :=
  try! px := lanczos E img w h in
  Ok (mkImage w h (mode img) (bands img) px).

(** [p.mkdir(parents=True, exist_ok=True)] *)
Definition mkdir (p : Path) : M unit :=
  fun σ => match mkdir_fault E σ p with
           | Some e => (Raise e, σ)
           | None => (Ok tt, add_dirs p σ)
           end.

(** [p.write_bytes(data)]: the file is created or replaced. *)
Definition write_bytes (p : Path) (data : bytes) : M unit :=
  fun σ => match write_fault E σ p with
           | Some (e, remains) => (Raise e, set_file p remains σ)
           | None => (Ok tt, set_file p (Some data) σ)
           end.

(** [img.save(p, format="WEBP", quality=q, method=6, optimize=True)] *)
Definition Image_save (img : Image Pix) (p : Path) (q : Z) : M unit :=
  fun σ => match write_fault E σ p with
           | Some (e, remains) => (Raise e, set_file p remains σ)
           | None =>
               match webp_encode E img q with
               | Raise e =>
                   (Raise e, set_file p (encode_residue E (files σ !! p)) σ)
               | Ok data => (Ok tt, set_file p (Some data) σ)
               end
           end.

(** *** The script's functions *)

Definition OUT_IMAGES : Path := ROOT E // "assets" // "images".
Definition OUT_ICONS : Path := ROOT E // "assets" // "icons".

Definition download_bytes (u : string) : M bytes :=
  fun σ => (urlopen_read E σ u, σ).

(** [job.url.split("?")[0].split("#")[0].split(".")[-1].lower()] *)
Definition original_ext (u : string) : string :=
  Str.lower
    (Str.final (Str.split "."
       (Str.first (Str.split "#" (Str.first (Str.split "?" u)))))).

Definition original_path (job : ImageJob) : Path :=
  out_dir job // (base_name job +:+ ".orig." +:+ original_ext (url job)).

Definition save_original (job : ImageJob) (blob : bytes) : M Path :=
  run! _ := mkdir (out_dir job) in
  run! _ := write_bytes (original_path job) blob in
  ret (original_path job).

Definition encode_webp (img : Image Pix) (out_path : Path) (q : Z) : M unit :=
  run! _ := mkdir (PurePath.parent out_path) in
  Image_save img out_path q.

(** The height [resize_to_width] asks for:
    [max(1, round(img.height * (width / img.width)))]. *)
Definition scaled_height (img : Image Pix) (w : Z) : result Z :=
  try! ratio := PyNum.int_true_divide w (width img) in
  try! x := PyNum.int_mul_float (height img) ratio in
  try! n := PyNum.round x in
  Ok (Z.max 1 n).

Definition resize_to_width (img : Image Pix) (w : Z) : result (Image Pix) :=
  if width img =? w then Ok img
  else
    try! h := scaled_height img w in
    Image_resize img w h.

(** [print(f"  -> {out_path.relative_to(ROOT)}")] *)
Definition report (out_path : Path) : M unit :=
  run! rel := lift (PurePath.relative_to out_path (ROOT E)) in
  print ("  -> " +:+ PurePath.to_str rel).

(** Lines 92-93: the mode is normalised unless it is RGB or RGBA. *)
Definition normalise_mode (im : Image Pix) : result (Image Pix) :=
  if String.eqb (mode im) "RGB" || String.eqb (mode im) "RGBA" then Ok im
  else Image_convert im (if bool_decide ("A" ∈ bands im) then "RGBA" else "RGB").

Definition webp_path (job : ImageJob) (w : Z) : Path :=
  out_dir job // (base_name job +:+ "-" +:+ pretty w +:+ ".webp").

Definition png_path (job : ImageJob) : Path :=
  out_dir job // (base_name job +:+ ".png").

(** Lines 95-99: the loop over [job.widths]. *)
Fixpoint each_width (job : ImageJob) (im : Image Pix) (ws : list Z) : M unit :=
  match ws with
  | [] => ret tt
  | w :: rest =>
      run! resized := lift (resize_to_width im w) in
      run! _ := encode_webp resized (webp_path job w) (quality job) in
      run! _ := report (webp_path job w) in
      each_width job im rest
  end.

(** Lines 81-99: what follows the archiver. *)
Definition transcode (job : ImageJob) (blob : bytes) : M unit :=
  if String.eqb (format job) "png" then
    run! _ := write_bytes (png_path job) blob in
    report (png_path job)
  else
    run! im0 := lift (Image_open E blob) in
    run! im := lift (normalise_mode im0) in
    each_width job im (widths job).

Definition process_job (job : ImageJob) : M unit :=
  run! _ := print ("Baixando: " +:+ url job) in
  run! blob := download_bytes (url job) in
  run! _ := save_original job blob in
  transcode job blob.

(** The handler of [except Exception as exc]. *)
Definition error_line (job : ImageJob) (exc : Exc) : string :=
  "ERRO em " +:+ url job +:+ ": " +:+ exc_str exc.

(** Lines 261-267: the loop of [main], with its [try]/[except]. *)
Fixpoint job_loop (js : list ImageJob) (failures : Z) (σ : World) : Z * World :=
  match js with
  | [] => (failures, σ)
  | job :: rest =>
      match process_job job σ with
      | (Ok _, σ') => job_loop rest failures σ'
      | (Raise exc, σ') =>
          job_loop rest (failures + 1) (eprint (error_line job exc) σ')
      end
  end.

Definition summary_line (failures : Z) : string :=
  "Concluído com " +:+ pretty failures +:+ " falha(s).".

(** Lines 269-274: the summary and the value handed to [SystemExit]. *)
Definition main_on (js : list ImageJob) (σ : World) : Z * World :=
  let (failures, σ') := job_loop js 0 σ in
  if negb (failures =? 0)
  then (2, eprint (summary_line failures) σ')
  else (0, snd (print "Concluído." σ')).

(** A job written with the dataclass default for [format]. *)
Definition job_of (u : string) (d : Path) (b : string) (ws : list Z) (q : Z)
  : ImageJob :=
  mkImageJob u d b ws default_format q.

Definition site : string := "https://franquiadepilates.com.br/wp-content/uploads/".

(** Lines 103-259: the job list. *)
Definition jobs : list ImageJob :=
  [ job_of (site +:+ "2025/10/Imagem.webp")
      OUT_IMAGES "hero" [640; 960; 1280; 1600; 1920] 76;
    job_of (site +:+ "2024/05/studio_voll_campinas_pilates_5.webp")
      OUT_IMAGES "target-left" [480; 640; 800] 78;
    job_of (site +:+ "2024/05/studio_voll_campinas_pilates_6.webp")
      OUT_IMAGES "security-bg" [640; 960; 1200] 76;
    job_of (site +:+ "2025/09/mapa.webp")
      OUT_IMAGES "mapa" [640; 960; 1200] 76;
    job_of (site +:+ "2025/10/VOLL-PILATES-Logotipo-Institucional-Branco-01.webp")
      OUT_IMAGES "logo-voll-branco" [150; 300] 82;
    job_of (site +:+ "2025/09/Associacao-Brasileira-de-Franchising-e1758288849748.webp")
      OUT_IMAGES "logo-abf" [200; 400] 82;
    job_of (site +:+ "2019/02/voll-pilates.png")
      OUT_IMAGES "logo-voll-grupo" [200; 400] 82;
    job_of (site +:+ "2025/09/maxresdefault.webp")
      OUT_IMAGES "testi-1" [480; 768; 1024; 1200] 76;
    job_of (site +:+ "2025/09/depoimento2.webp")
      OUT_IMAGES "testi-2" [480; 768; 1024; 1200] 76;
    job_of (site +:+ "2025/09/depoimento3.webp")
      OUT_IMAGES "testi-3" [480; 768; 1024; 1200] 76;
    job_of (site +:+ "2025/09/depoimento4.webp")
      OUT_IMAGES "testi-4" [480; 768; 1024; 1200] 76;
    job_of (site +:+ "2025/09/depoimento5.webp")
      OUT_IMAGES "testi-5" [480; 768; 1024; 1200] 76;
    job_of (site +:+ "2019/11/icons8-f%C3%A1cil-100.png")
      OUT_ICONS "investimento-facilitado" [64; 128] 80;
    job_of (site +:+ "2019/11/icons8-presente-100.png")
      OUT_ICONS "equipamentos" [64; 128] 80;
    job_of (site +:+ "2019/11/icons8-gr%C3%A1fico-100.png")
      OUT_ICONS "escalabilidade" [64; 128] 80;
    job_of (site +:+ "2019/11/icons8-professor-100.png")
      OUT_ICONS "formacao-tecnica" [64; 128] 80;
    job_of (site +:+ "2019/11/icons8-undefined-100.png")
      OUT_ICONS "direitos-marca" [64; 128] 80;
    job_of (site +:+ "2019/11/icons8-sacar-dinheiro-100.png")
      OUT_ICONS "fature-muito" [64; 128] 80;
    job_of (site +:+ "2019/11/icons8-restitui%C3%A7%C3%A3o-2-100.png")
      OUT_ICONS "payback" [48; 96] 80;
    job_of (site +:+ "2019/11/icons8-undefined-1001.png")
      OUT_ICONS "breakeven" [48; 96] 80;
    job_of (site +:+ "2019/11/icons8-comprar-moedas-100.png")
      OUT_ICONS "royalties" [48; 96] 80 ].

Definition main : World -> Z * World := main_on jobs.

End Pipeline.

(* ===================================================================== *)
(** ** The specification's wording, for comparison *)
(* ===================================================================== *)

(** The derivative height as the specification words it: the exact value
    of [H * w / W], rounded to the nearest integer (ties to even, as
    Python's [round]), at least 1. *)
Definition claimed_height (H w W : Z) : Z :=
  Z.max 1 (PyNum.round_half_even_div (H * w) W).

(** The same with ties rounded up. *)
Definition claimed_height_half_up (H w W : Z) : Z :=
  Z.max 1 ((2 * (H * w) + W) / (2 * W)).

(** A URL with its query string and fragment removed. *)
Fixpoint strip_query_fragment (u : string) : string :=
  match u with
  | EmptyString => EmptyString
  | String c u' =>
      if Ascii.eqb c "?" || Ascii.eqb c "#" then EmptyString
      else String c (strip_query_fragment u')
  end.

(** The text after the last occurrence of [c] in [s]; all of [s] when [c]
    does not occur. *)
Fixpoint after_last (c : ascii) (s : string) : string :=
  match s with
  | EmptyString => EmptyString
  | String d s' =>
      if Str.contains c s' then after_last c s'
      else if Ascii.eqb d c then s' else s
  end.

(** The URL's last path extension as the specification words it: the
    extension of the final path segment, lower-cased, query string and
    fragment ignored; empty when that segment has no dot. *)
Definition claimed_ext (u : string) : string :=
  let segment := after_last "/" (strip_query_fragment u) in
  if Str.contains "." segment then Str.lower (after_last "." segment)
  else EmptyString.

(* ===================================================================== *)
(** ** A concrete environment for examples *)
(* ===================================================================== *)

Definition demo_blob : bytes := [Byte.x89; Byte.x50; Byte.x4e; Byte.x47].
Definition demo_webp : bytes := [Byte.x52; Byte.x49; Byte.x46; Byte.x46].

Definition demo_image (w h : Z) (m : string) (bs : list string) : Image unit :=
  mkImage w h m bs tt.

(** A network that answers [net], a disk that never refuses, a decoder that
    always yields [decoded], a resampler that insists on positive sizes. *)
Definition demo_env (decoded : result (Image unit))
    (net : string -> result bytes) : Env unit :=
  mkEnv (mkPath "/" ["srv"; "franquia"])
        (fun _ u => net u)
        (fun _ _ => None)
        (fun _ _ => None)
        (fun _ => decoded)
        (fun _ m => Ok (if String.eqb m "RGBA" then ["R"; "G"; "B"; "A"]
                        else ["R"; "G"; "B"], tt))
        (fun _ w h => if (w <? 1) || (h <? 1)
                      then Raise (mkExc "ValueError" "height and width must be > 0")
                      else Ok tt)
        (fun _ _ => Ok demo_webp)
        (fun o => o).

Definition always (blob : bytes) : string -> result bytes := fun _ => Ok blob.

Definition plain_env : Env unit :=
  demo_env (Ok (demo_image 1920 1080 "RGB" ["R"; "G"; "B"])) (always demo_blob).

Definition empty_world : World := mkWorld ∅ ∅ [] [].

Definition not_found : Exc := mkExc "HTTPError" "HTTP Error 404: Not Found".

(** A network on which two of the listed assets are gone. *)
Definition two_missing (u : string) : result bytes :=
  if String.eqb u (site +:+ "2025/09/mapa.webp")
     || String.eqb u (site +:+ "2019/11/icons8-undefined-1001.png")
  then Raise not_found else Ok demo_blob.

Definition flaky_env : Env unit :=
  demo_env (Ok (demo_image 1920 1080 "RGB" ["R"; "G"; "B"])) two_missing.

(** A decoder that turns every payload down. *)
Definition undecodable_env : Env unit :=
  demo_env (Raise (mkExc "UnidentifiedImageError" "cannot identify image file"))
           (always demo_blob).

(** A decoder that yields a paletted bitmap with transparency. *)
Definition palette_env : Env unit :=
  demo_env (Ok (demo_image 500 250 "PA" ["P"; "A"])) (always demo_blob).

Definition no_job : ImageJob := mkImageJob "" (mkPath "" []) "" [] "" 0.

(** A world that already holds one file next to the outputs. *)
Definition notes_path : Path :=
  mkPath "/" ["srv"; "franquia"; "assets"; "images"; "notes.txt"].

Definition seeded_world : World :=
  mkWorld {[ notes_path := demo_webp ]} ∅ [] [].

(* ===================================================================== *)
(** ** Observations on runs *)
(* ===================================================================== *)

(** Every run of [c] relates the world before to the world after by [R]. *)
Definition preserves {A} (R : World -> World -> Prop) (c : M A) : Prop :=
  forall σ r σ', c σ = (r, σ') -> R σ σ'.

(** What is stored at [p] has not changed. *)
Definition same_file (p : Path) (σ σ' : World) : Prop :=
  files σ' !! p = files σ !! p.

(** Lines were added to the output stream at most; the error stream and
    the files are as they were. *)
Definition only_prints (σ σ' : World) : Prop :=
  stderr σ' = stderr σ /\ exists l, stdout σ' = stdout σ ++ l.

Section Runs.

Context {Pix : Type} (E : Env Pix).

(** The world once the job has been announced on the output stream, which
    is the world the download sees. *)
Definition announced (job : ImageJob) (σ : World) : World :=
  snd (print ("Baixando: " +:+ url job) σ).

(** The world after the [try] statement of the loop, given the outcome of
    the job's pipeline. *)
Definition handled (job : ImageJob) (r : result unit) (σ : World) : World :=
  match r with
  | Ok _ => σ
  | Raise exc => eprint (error_line job exc) σ
  end.

(** The outcome of every job of a run, in order. *)
Fixpoint outcomes (js : list ImageJob) (σ : World)
  : list (ImageJob * result unit) :=
  match js with
  | [] => []
  | job :: rest =>
      let (r, σ') := process_job E job σ in
      (job, r) :: outcomes rest (handled job r σ')
  end.

Definition has_failed (jr : ImageJob * result unit) : bool :=
  match snd jr with Raise _ => true | Ok _ => false end.

(** The jobs whose pipeline raised. *)
Definition failed (o : list (ImageJob * result unit))
  : list (ImageJob * result unit) :=
  List.filter has_failed o.

Definition failure_count (o : list (ImageJob * result unit)) : Z :=
  Z.of_nat (length (failed o)).

(** One line per failed job, as the handler words it. *)
Definition error_lines (o : list (ImageJob * result unit)) : list string :=
  map (fun jr => match snd jr with
                 | Raise exc => error_line (fst jr) exc
                 | Ok _ => EmptyString
                 end) (failed o).

(** The line a job prints before anything else. *)
Definition announcement (job : ImageJob) : string := "Baixando: " +:+ url job.


(** What the body of the width loop stores for width [w]: [im] resized
    by [resize_to_width], encoded at the job's quality. *)
Definition derivative (job : ImageJob) (im : Image Pix) (w : Z) : result bytes :=
  try! r := resize_to_width E im w in webp_encode E r (quality job).

(** The line [report] prints for a path below [ROOT]. *)
Definition report_line (p : Path) : string :=
  match PurePath.relative_to p (ROOT E) with
  | Ok rel => "  -> " +:+ PurePath.to_str rel
  | Raise _ => EmptyString
  end.

(** A disk that never refuses a directory or a write. *)
Definition cooperative_disk : Prop :=
  (forall s p, mkdir_fault E s p = None) /\
  (forall s p, write_fault E s p = None).

End Runs.

(* ===================================================================== *)
(** ** Facts about the double arithmetic *)
(* ===================================================================== *)

Module PyNumFacts.
Import PyNum.

Lemma digits2_pos_size p : digits2_pos p = Pos.size p.
Proof. induction p; simpl; congruence. Qed.

Lemma Zdigits2_log2 m : 0 < m -> Zdigits2 m = Z.log2 m + 1.
Proof.
  destruct m as [|p|p]; try lia. intros _. simpl.
  rewrite digits2_pos_size. destruct p; simpl; lia.
Qed.

Lemma Zdigits2_nonneg m : 0 <= Zdigits2 m.
Proof. destruct m; simpl; lia. Qed.

Lemma Zdigits2_pos m : 0 < m -> 0 < Zdigits2 m.
Proof. destruct m; simpl; lia. Qed.

(** Digits lost by a right shift. *)
Lemma digits_div_pow2 m k :
  0 <= m -> 0 <= k -> Zdigits2 (m / 2 ^ k) <= Z.max 0 (Zdigits2 m - k).
Proof.
  intros Hm Hk.
  assert (Hq : 0 <= m / 2 ^ k) by (apply Z.div_pos; [lia|apply Z.pow_pos_nonneg; lia]).
  destruct (Z.eq_dec (m / 2 ^ k) 0) as [H0|H0]; [rewrite H0; simpl; lia|].
  assert (0 < m).
  { destruct (Z.eq_dec m 0) as [->|]; [|lia]. now rewrite Z.div_0_l in H0 by (apply Z.pow_nonzero; lia). }
  rewrite <- Z.shiftr_div_pow2 in * by lia.
  assert (Hlog : k <= Z.log2 m).
  { destruct (Z_lt_le_dec (Z.log2 m) k) as [Hlt|]; [|lia].
    now rewrite Z.shiftr_eq_0 in H0 by lia. }
  rewrite (Zdigits2_log2 m) by lia.
  rewrite Zdigits2_log2 by lia.
  rewrite Z.log2_shiftr by lia. lia.
Qed.

Lemma digits_succ m : 0 <= m -> Zdigits2 (m + 1) <= Zdigits2 m + 1.
Proof.
  intros Hm. destruct (Z.eq_dec m 0) as [->|]; [simpl; lia|].
  rewrite !Zdigits2_log2 by lia.
  pose proof (Z.log2_succ_le m). unfold Z.succ in *. lia.
Qed.

Lemma digits_mul a b : 0 < a -> 0 < b -> Zdigits2 (a * b) <= Zdigits2 a + Zdigits2 b.
Proof.
  intros Ha Hb. rewrite !Zdigits2_log2 by nia.
  pose proof (Z.log2_mul_above a b). lia.
Qed.

Lemma digits_div a b :
  0 <= a -> 0 < b -> Zdigits2 (a / b) <= Z.max 0 (Zdigits2 a - Zdigits2 b + 1).
Proof.
  intros Ha Hb.
  assert (Hq : 0 <= a / b) by (apply Z.div_pos; lia).
  destruct (Z.eq_dec (a / b) 0) as [H0|H0]; [rewrite H0; simpl; lia|].
  assert (Hab : b <= a).
  { destruct (Z_lt_le_dec a b) as [Hlt|]; [|lia]. rewrite Z.div_small in H0; lia. }
  rewrite !Zdigits2_log2 by lia.
  pose proof (Z.log2_spec b Hb) as [Hlo _].
  assert (Hle : a / b <= a / 2 ^ Z.log2 b).
  { apply Z.div_le_compat_l; [lia|]. split; [apply Z.pow_pos_nonneg; [lia|apply Z.log2_nonneg]|lia]. }
  apply Z.log2_le_mono in Hle.
  rewrite <- Z.shiftr_div_pow2 in Hle by apply Z.log2_nonneg.
  rewrite Z.log2_shiftr in Hle by lia.
  pose proof (Z.log2_le_mono b a Hab). lia.
Qed.

Lemma shr_1_m mrs : 0 <= shr_m mrs -> shr_m (shr_1 mrs) = shr_m mrs / 2.
Proof.
  destruct mrs as [m r s]. cbn [shr_m]. intros Hm. unfold shr_1.
  destruct m as [|[p|p|]|p]; cbn [shr_m]; try lia; try reflexivity.
  - apply (Z.div_unique (Z.pos p~1) 2 (Z.pos p) 1); lia.
  - apply (Z.div_unique (Z.pos p~0) 2 (Z.pos p) 0); lia.
Qed.

Lemma pow2_xO p : 2 ^ Z.pos p~0 = 2 ^ Z.pos p * 2 ^ Z.pos p.
Proof. rewrite <- Z.pow_add_r by lia. f_equal. lia. Qed.

Lemma pow2_xI p : 2 ^ Z.pos p~1 = 2 * (2 ^ Z.pos p * 2 ^ Z.pos p).
Proof.
  rewrite <- Z.pow_add_r by lia.
  replace (Z.pos p~1) with (Z.succ (Z.pos p + Z.pos p)) by lia.
  rewrite Z.pow_succ_r by lia. reflexivity.
Qed.

Lemma iter_shr_1_m p mrs :
  0 <= shr_m mrs ->
  shr_m (SpecFloat.iter_pos shr_1 p mrs) = shr_m mrs / 2 ^ Z.pos p.
Proof.
  revert mrs. induction p as [p IH|p IH|]; intros mrs Hm; cbn [SpecFloat.iter_pos].
  - assert (H1 : 0 <= shr_m (shr_1 mrs)) by (rewrite shr_1_m by lia; apply Z.div_pos; lia).
    assert (H2 : 0 <= shr_m (SpecFloat.iter_pos shr_1 p (shr_1 mrs)))
      by (rewrite IH by lia; apply Z.div_pos; [lia|apply Z.pow_pos_nonneg; lia]).
    rewrite IH, IH, shr_1_m by lia.
    assert (Hp : 0 < 2 ^ Z.pos p) by (apply Z.pow_pos_nonneg; lia).
    rewrite !Z.div_div by lia. now rewrite pow2_xI.
  - assert (H2 : 0 <= shr_m (SpecFloat.iter_pos shr_1 p mrs))
      by (rewrite IH by lia; apply Z.div_pos; [lia|apply Z.pow_pos_nonneg; lia]).
    rewrite IH, IH by lia.
    assert (Hp : 0 < 2 ^ Z.pos p) by (apply Z.pow_pos_nonneg; lia).
    rewrite !Z.div_div by lia. now rewrite pow2_xO.
  - now rewrite shr_1_m.
Qed.

Lemma shr_record_of_loc_m m l : shr_m (shr_record_of_loc m l) = m.
Proof. destruct l as [|[]]; reflexivity. Qed.

(** What [shr_fexp] returns: the exponent is raised to the format's
    exponent when that is larger, and the mantissa is shifted to match. *)
Lemma shr_fexp_spec m e l :
  0 <= m ->
  let e' := Z.max e (fexp prec emax (Zdigits2 m + e)) in
  snd (shr_fexp prec emax m e l) = e' /\
  shr_m (fst (shr_fexp prec emax m e l)) = m / 2 ^ (e' - e).
Proof.
  intros Hm e'. unfold shr_fexp, shr. subst e'.
  set (f := fexp prec emax (Zdigits2 m + e)).
  destruct (f - e) as [|p|p] eqn:Hn; cbn [fst snd].
  - rewrite shr_record_of_loc_m. replace (Z.max e f - e) with 0 by lia.
    rewrite Z.div_1_r. split; lia.
  - rewrite iter_shr_1_m by (rewrite shr_record_of_loc_m; lia).
    rewrite shr_record_of_loc_m. replace (Z.max e f - e) with (Z.pos p) by lia.
    split; lia.
  - rewrite shr_record_of_loc_m. replace (Z.max e f - e) with 0 by lia.
    rewrite Z.div_1_r. split; lia.
Qed.

Lemma round_nearest_even_range m l :
  0 <= m -> m <= round_nearest_even m l <= m + 1.
Proof.
  intros Hm. destruct l as [|[]]; cbn; try lia. destruct (Z.even m); lia.
Qed.

Lemma digits_mono a b : 0 <= a <= b -> Zdigits2 a <= Zdigits2 b.
Proof.
  intros [Ha Hab]. destruct (Z.eq_dec a 0) as [->|]; [apply Zdigits2_nonneg|].
  rewrite !Zdigits2_log2 by lia. pose proof (Z.log2_le_mono a b Hab). lia.
Qed.

(** A number below [2^K] rounds to zero or to a finite double below
    [2^(K+1)]; the exponent grows no further than the format asks. *)
Lemma binary_round_aux_small s m e l K :
  0 <= m -> Zdigits2 m + e <= K -> -1074 <= K - 52 -> K + 1 <= emax -> e <= emax - prec ->
  small (K + 1) (Z.max e (K - 52)) (binary_round_aux prec emax s m e l).
Proof.
  intros Hm HD HK Hmax He. unfold binary_round_aux.
  destruct (shr_fexp_spec m e l Hm) as [He1 Hm1].
  destruct (shr_fexp prec emax m e l) as [mrs1 e1]. cbn [fst snd] in He1, Hm1.
  rewrite <- He1 in Hm1.
  set (m1 := round_nearest_even (shr_m mrs1) (loc_of_shr_record mrs1)).
  assert (Hq1 : 0 <= shr_m mrs1).
  { rewrite Hm1. apply Z.div_pos; [lia|apply Z.pow_pos_nonneg; lia]. }
  pose proof (round_nearest_even_range (shr_m mrs1) (loc_of_shr_record mrs1) Hq1) as Hr.
  fold m1 in Hr.
  assert (Hm1nn : 0 <= m1) by lia.
  destruct (shr_fexp_spec m1 e1 loc_Exact Hm1nn) as [He2 Hm2].
  destruct (shr_fexp prec emax m1 e1 loc_Exact) as [mrs2 e2]. cbn [fst snd] in He2, Hm2.
  rewrite <- He2 in Hm2.
  pose proof (Zdigits2_nonneg m) as Hdm.
  assert (Hd1 : Zdigits2 (shr_m mrs1) <= Z.max 0 (Zdigits2 m - (e1 - e))).
  { rewrite Hm1. apply digits_div_pow2; lia. }
  assert (Hdm1 : Zdigits2 m1 <= Zdigits2 (shr_m mrs1) + 1).
  { etransitivity; [apply digits_mono; split; [exact Hm1nn|apply Hr]|].
    now apply digits_succ. }
  assert (Hd2 : Zdigits2 (shr_m mrs2) <= Z.max 0 (Zdigits2 m1 - (e2 - e1))).
  { rewrite Hm2. apply digits_div_pow2; lia. }
  unfold fexp, emin, prec, emax in *.
  destruct (shr_m mrs2) as [|p|p] eqn:Hp.
  - exact I.
  - cbn [Zdigits2] in Hd2.
    assert (Hfin : e2 <= 1024 - 53) by lia.
    apply Z.leb_le in Hfin. rewrite Hfin. cbn [small]. lia.
  - assert (0 <= m1 / 2 ^ (e2 - e1))
      by (apply Z.div_pos; [lia|apply Z.pow_pos_nonneg; lia]).
    lia.
Qed.

Lemma iter_xO_digits m d :
  digits2_pos (Pos.iter xO m d) = (digits2_pos m + d)%positive.
Proof.
  induction d as [|d IH] using Pos.peano_ind.
  - cbn. lia.
  - rewrite Pos.iter_succ. cbn [digits2_pos]. rewrite IH. lia.
Qed.

(** [float(n)] is finite for an int below [2^31]. *)
Lemma int_to_float_small n :
  0 <= n < 2 ^ 31 ->
  exists x, int_to_float n = Ok x /\ small 32 0 x.
Proof.
  intros [Hn0 Hn]. unfold int_to_float, binary_normalize.
  destruct n as [|p|p]; [eexists; split; [reflexivity|exact I]| |lia].
  unfold binary_round, shl_align.
  assert (Hd : Zdigits2 (Z.pos p) <= 31).
  { rewrite Zdigits2_log2 by lia.
    assert (Z.log2 (Z.pos p) < 31) by (apply Z.log2_lt_pow2; lia). lia. }
  cbn [Zdigits2] in Hd.
  set (f := fexp prec emax (Z.pos (digits2_pos p) + 0)).
  assert (Hf : f <= -22) by (unfold f, fexp, emin, prec, emax; lia).
  assert (Hf' : -1074 <= f) by (unfold f, fexp, emin, prec, emax; lia).
  destruct (f - 0) as [|q|q] eqn:Hq; try lia.
  pose proof (binary_round_aux_small false (Z.pos (Pos.iter xO p q)) f loc_Exact 31) as Hs.
  cbn [Zdigits2] in Hs. rewrite iter_xO_digits in Hs.
  assert (Hfd : f = Z.pos (digits2_pos p) - 53).
  { unfold f, fexp, emin, prec, emax. lia. }
  specialize (Hs ltac:(lia) ltac:(lia) ltac:(lia) ltac:(unfold emax; lia)
                 ltac:(unfold emax, prec; lia)).
  destruct (binary_round_aux prec emax false (Z.pos (Pos.iter xO p q)) f loc_Exact)
    as [s| |  |s m e]; cbn [small] in Hs; try contradiction.
  - eexists. split; [reflexivity|exact I].
  - eexists. split; [reflexivity|]. cbn [small]. lia.
Qed.

(** [a / b] is finite for positive ints below [2^31]. *)
Lemma int_true_divide_small a b :
  0 < a < 2 ^ 31 -> 0 < b < 2 ^ 31 ->
  exists x, int_true_divide a b = Ok x /\ small 32 0 x.
Proof.
  intros [Ha0 Ha] [Hb0 Hb]. unfold int_true_divide.
  destruct (Z.eqb_spec b 0) as [|_]; [lia|].
  destruct (Z.eqb_spec a 0) as [|_]; [lia|].
  rewrite !Z.abs_eq by lia.
  unfold SFdiv_core_binary.
  assert (Hda : 1 <= Zdigits2 a <= 31).
  { rewrite Zdigits2_log2 by lia. pose proof (Z.log2_nonneg a).
    assert (Z.log2 a < 31) by (apply Z.log2_lt_pow2; lia). lia. }
  assert (Hdb : 1 <= Zdigits2 b <= 31).
  { rewrite Zdigits2_log2 by lia. pose proof (Z.log2_nonneg b).
    assert (Z.log2 b < 31) by (apply Z.log2_lt_pow2; lia). lia. }
  set (e' := Z.min (fexp prec emax (Zdigits2 a + 0 - (Zdigits2 b + 0))) (0 - 0)).
  assert (He' : e' = Zdigits2 a - Zdigits2 b - 53)
    by (unfold e', fexp, emin, prec, emax; lia).
  set (sh := 0 - 0 - e').
  assert (Hsh : sh = 53 + Zdigits2 b - Zdigits2 a) by (unfold sh; lia).
  assert (Hm' : match sh with Z.pos _ => Z.shiftl a sh | 0 => a | Z.neg _ => 0 end
                = a * 2 ^ sh).
  { destruct sh eqn:Hs; try lia. now rewrite Z.shiftl_mul_pow2 by lia. }
  rewrite Hm'.
  pose proof (Z.div_eucl_eq (a * 2 ^ sh) b ltac:(lia)) as Heu.
  assert (Hq : fst (Z.div_eucl (a * 2 ^ sh) b) = a * 2 ^ sh / b) by reflexivity.
  destruct (Z.div_eucl (a * 2 ^ sh) b) as [q r]. cbn [fst] in Hq. clear Heu.
  assert (Hpow : 0 < 2 ^ sh) by (apply Z.pow_pos_nonneg; lia).
  assert (Hq0 : 0 <= q) by (rewrite Hq; apply Z.div_pos; nia).
  assert (Hdq : Zdigits2 q + e' <= 31).
  { rewrite Hq.
    pose proof (digits_div (a * 2 ^ sh) b ltac:(nia) ltac:(lia)) as Hdd.
    assert (Hdm : Zdigits2 (a * 2 ^ sh) = Zdigits2 a + sh).
    { rewrite !Zdigits2_log2 by nia. rewrite Z.log2_mul_pow2 by lia. lia. }
    lia. }
  pose proof (binary_round_aux_small (xorb (a <? 0) (b <? 0)) q e'
                (new_location b r) 31 Hq0 Hdq ltac:(lia)
                ltac:(unfold emax; lia) ltac:(unfold emax, prec; lia)) as Hs.
  destruct (binary_round_aux prec emax (xorb (a <? 0) (b <? 0)) q e'
              (new_location b r)) as [s| |  |s m e];
    cbn [small] in Hs; try contradiction.
  - eexists. split; [reflexivity|exact I].
  - eexists. split; [reflexivity|]. cbn [small]. lia.
Qed.

Lemma SFmul_small x y :
  small 32 0 x -> small 32 0 y ->
  match SFmul prec emax x y with
  | S754_zero _ | S754_finite _ _ _ => True
  | _ => False
  end.
Proof.
  destruct x as [sx| | |sx mx ex], y as [sy| | |sy my ey]; cbn [small SFmul];
    try tauto.
  intros [Hx Hex] [Hy Hey].
  assert (Hd : Z.pos (digits2_pos (mx * my))
               <= Z.pos (digits2_pos mx) + Z.pos (digits2_pos my))
    by exact (digits_mul (Z.pos mx) (Z.pos my) eq_refl eq_refl).
  assert (Hs : small (64 + 1) (Z.max (ex + ey) (64 - 52))
                 (binary_round_aux prec emax (xorb sx sy) (Z.pos (mx * my))
                    (ex + ey) loc_Exact)).
  { apply binary_round_aux_small; unfold emax, prec; cbn [Zdigits2]; lia. }
  destruct (binary_round_aux prec emax (xorb sx sy) (Z.pos (mx * my)) (ex + ey) loc_Exact);
    cbn [small] in Hs; tauto.
Qed.

End PyNumFacts.

(* ===================================================================== *)
(** ** Resizing *)
(* ===================================================================== *)

Section Resizing.

Context {Pix : Type} (E : Env Pix).

(** C7. When the bitmap's width already equals the requested width,
    [resize_to_width] hands back the very same bitmap: no resampling is
    asked of Pillow. *)
Theorem resize_same_width_is_identity (img : Image Pix) (w : Z) :
  width img = w -> resize_to_width E img w = Ok img.
Proof.
  intros Hw. unfold resize_to_width.
  apply Z.eqb_eq in Hw. now rewrite Hw.
Qed.

(** The arithmetic of [resize_to_width] never raises on sizes that fit
    32-bit signed integers, which are the sizes Pillow can hold. *)
Lemma scaled_height_total (img : Image Pix) (w : Z) :
  0 < width img < 2 ^ 31 -> 0 <= height img < 2 ^ 31 -> 0 < w < 2 ^ 31 ->
  exists h, scaled_height img w = Ok h /\ 1 <= h.
Proof.
  intros HW HH Hw. unfold scaled_height.
  destruct (PyNumFacts.int_true_divide_small w (width img) Hw HW)
    as (ratio & -> & Hr).
  cbn [rbind]. unfold PyNum.int_mul_float.
  destruct (PyNumFacts.int_to_float_small (height img) HH) as (y & -> & Hy).
  cbn [rbind].
  pose proof (PyNumFacts.SFmul_small y ratio Hy Hr) as Hx.
  destruct (SFmul PyNum.prec PyNum.emax y ratio) as [s| | |s m e];
    try contradiction;
    cbn [PyNum.round rbind]; eexists; (split; [reflexivity|lia]).
Qed.

(** C2, amended. When the widths differ, every derivative that
    [resize_to_width] returns is exactly [w] wide, and its height is
    [max(1, round(H * (w / W)))] computed as Python does: [w / W] is
    rounded to a double, multiplied by [H] in double arithmetic, and the
    product is rounded to the nearest integer, ties to even. For sizes
    that fit 32-bit signed integers this arithmetic never raises, so the
    derivative is produced as soon as Pillow's resampler accepts the
    size. *)
Theorem resize_dimensions (img : Image Pix) (w : Z) :
  width img <> w ->
  (forall r,
     resize_to_width E img w = Ok r ->
     width r = w /\
     exists ratio x n,
       PyNum.int_true_divide w (width img) = Ok ratio /\
       PyNum.int_mul_float (height img) ratio = Ok x /\
       PyNum.round x = Ok n /\
       height r = Z.max 1 n) /\
  (0 < width img < 2 ^ 31 -> 0 <= height img < 2 ^ 31 -> 0 < w < 2 ^ 31 ->
   exists h,
     scaled_height img w = Ok h /\ 1 <= h /\
     forall px,
       lanczos E img w h = Ok px ->
       resize_to_width E img w = Ok (mkImage w h (mode img) (bands img) px)).
Proof.
  intros Hne. apply Z.eqb_neq in Hne. split.
  - intros r Hr. unfold resize_to_width in Hr. rewrite Hne in Hr.
    unfold scaled_height in Hr.
    destruct (PyNum.int_true_divide w (width img)) as [ratio|e] eqn:Hq;
      [|discriminate].
    cbn [rbind] in Hr.
    destruct (PyNum.int_mul_float (height img) ratio) as [x|e] eqn:Hx;
      [|discriminate].
    cbn [rbind] in Hr.
    destruct (PyNum.round x) as [n|e] eqn:Hn; [|discriminate].
    cbn [rbind] in Hr. unfold Image_resize in Hr.
    destruct (lanczos E img w (Z.max 1 n)) as [px|e]; [|discriminate].
    cbn [rbind] in Hr. injection Hr as <-. cbn.
    split; [reflexivity|]. now exists ratio, x, n.
  - intros HW HH Hw.
    destruct (scaled_height_total img w HW HH Hw) as (h & Hh & Hpos).
    exists h. split; [exact Hh|]. split; [exact Hpos|].
    intros px Hpx. unfold resize_to_width. rewrite Hne, Hh. cbn [rbind].
    unfold Image_resize. now rewrite Hpx.
Qed.

End Resizing.

Lemma resize_same_width_is_identity_witness :
  resize_to_width plain_env (demo_image 640 360 "RGB" ["R"; "G"; "B"]) 640
  = Ok (demo_image 640 360 "RGB" ["R"; "G"; "B"]).
Proof. apply resize_same_width_is_identity. reflexivity. Defined.

Lemma resize_dimensions_witness :
  (width (demo_image 640 360 "RGB" ["R"; "G"; "B"]) = 640 /\
   exists ratio x n,
     PyNum.int_true_divide 640 1920 = Ok ratio /\
     PyNum.int_mul_float 1080 ratio = Ok x /\
     PyNum.round x = Ok n /\
     height (demo_image 640 360 "RGB" ["R"; "G"; "B"]) = Z.max 1 n) /\
  exists h,
    scaled_height (demo_image 1920 1080 "RGB" ["R"; "G"; "B"]) 640 = Ok h /\
    1 <= h.
Proof.
  destruct (resize_dimensions plain_env
              (demo_image 1920 1080 "RGB" ["R"; "G"; "B"]) 640)
    as [Hdims Htotal].
  - cbn. lia.
  - split.
    + apply (Hdims (demo_image 640 360 "RGB" ["R"; "G"; "B"])).
      vm_compute. reflexivity.
    + destruct Htotal as (h & Hh & Hpos & _); [cbn; lia ..|].
      exists h. now split.
Defined.

(** C2, as worded, fails: a 1040 x 1300 bitmap asked for width 150 comes
    out 187 high, while the exact [1300 * 150 / 1040 = 187.5] rounds to 188
    (ties to even or ties up alike). The double nearest to [150 / 1040] is
    a little below it, and so is the product. *)
Lemma resize_height_counterexample :
  let img := demo_image 1040 1300 "RGB" ["R"; "G"; "B"] in
  width img <> 150 /\
  resize_to_width plain_env img 150
    = Ok (demo_image 150 187 "RGB" ["R"; "G"; "B"]) /\
  claimed_height (height img) 150 (width img) = 188 /\
  claimed_height_half_up (height img) 150 (width img) = 188.
Proof.
  cbv zeta. split; [cbn; lia|]. split; [vm_compute; reflexivity|].
  split; vm_compute; reflexivity.
Qed.

(* ===================================================================== *)
(** ** Facts about [split], [lower] and friends *)
(* ===================================================================== *)

Module StrFacts.
Import Str.

Lemma split_nonempty sep s : split sep s <> [].
Proof.
  destruct s as [|c s]; cbn; [discriminate|].
  destruct (Ascii.eqb c sep); [discriminate|].
  destruct (split sep s); discriminate.
Qed.

Lemma split_cons sep c s :
  split sep (String c s) =
  if Ascii.eqb c sep then EmptyString :: split sep s
  else String c (first (split sep s)) :: tl (split sep s).
Proof.
  cbn. destruct (Ascii.eqb c sep); [reflexivity|].
  destruct (split sep s) eqn:Hs; [|reflexivity].
  now apply split_nonempty in Hs.
Qed.

Lemma split_absent sep s : contains sep s = false -> split sep s = [s].
Proof.
  induction s as [|c s IH]; cbn; [reflexivity|].
  intros H. apply orb_false_iff in H as [Hc Hs].
  rewrite Hc, (IH Hs). reflexivity.
Qed.

Lemma split_present sep s :
  contains sep s = true -> exists p q ps, split sep s = p :: q :: ps.
Proof.
  induction s as [|c s IH]; cbn; [discriminate|].
  intros H. destruct (Ascii.eqb c sep) eqn:Hc.
  - destruct (split sep s) as [|q ps] eqn:Hs; [now apply split_nonempty in Hs|].
    now exists EmptyString, q, ps.
  - cbn in H. destruct (IH H) as (p & q & ps & ->).
    now exists (String c p), q, ps.
Qed.

Lemma final_cons x y l : final (x :: y :: l) = final (y :: l).
Proof. reflexivity. Qed.

Lemma after_last_absent c s : contains c s = false -> after_last c s = s.
Proof.
  destruct s as [|d s]; cbn; [reflexivity|].
  intros H. apply orb_false_iff in H as [Hd Hs]. now rewrite Hs, Hd.
Qed.

(** [s.split(c)[-1]] is the text after the last [c]. *)
Lemma final_split c s : final (split c s) = after_last c s.
Proof.
  induction s as [|d s IH]; [reflexivity|].
  rewrite split_cons. cbn [after_last].
  destruct (contains c s) eqn:Hin.
  - destruct (split_present _ _ Hin) as (p & q & ps & Hs).
    rewrite Hs in *. cbn [first tl hd].
    destruct (Ascii.eqb d c); rewrite final_cons; exact IH.
  - rewrite (split_absent _ _ Hin) in *. cbn [first tl hd].
    destruct (Ascii.eqb d c); reflexivity.
Qed.

(** [s.split("?")[0].split("#")[0]] drops the query string and fragment. *)
Lemma first_split_twice u :
  first (split "#" (first (split "?" u))) = strip_query_fragment u.
Proof.
  induction u as [|c u IH]; [reflexivity|].
  rewrite split_cons. cbn [strip_query_fragment].
  destruct (Ascii.eqb c "?") eqn:Hq; [reflexivity|].
  cbn [first hd orb]. rewrite split_cons.
  destruct (Ascii.eqb c "#"); [reflexivity|].
  cbn [first hd]. f_equal. exact IH.
Qed.

Lemma contains_app c a b : contains c (a +:+ b) = contains c a || contains c b.
Proof.
  induction a as [|d a IH]; simpl; [reflexivity|].
  now rewrite IH, orb_assoc.
Qed.

Lemma after_last_app c pre suf :
  contains c suf = false -> after_last c (pre +:+ String c suf) = suf.
Proof.
  intros Hsuf. induction pre as [|d pre IH]; simpl.
  - now rewrite Hsuf, Ascii.eqb_refl.
  - rewrite contains_app. simpl. rewrite Ascii.eqb_refl, orb_true_r. exact IH.
Qed.

Lemma append_assoc a b c : (a +:+ b) +:+ c = a +:+ (b +:+ c).
Proof.
  induction a as [|x a IH]; [reflexivity|].
  change (String x ((a +:+ b) +:+ c) = String x (a +:+ (b +:+ c))).
  now rewrite IH.
Qed.






End StrFacts.

(* ===================================================================== *)
(** ** Facts about paths *)
(* ===================================================================== *)

Module PathFacts.
Import Str StrFacts PurePath.

Lemma first_split_cons sep c s :
  first (split sep (String c s)) =
  if Ascii.eqb c sep then EmptyString else String c (first (split sep s)).
Proof. rewrite split_cons. now destruct (Ascii.eqb c sep). Qed.


(** Appending text glues its first piece to the last piece so far. *)
Lemma split_app sep b t :
  split sep (b +:+ t) =
  removelast (split sep b)
    ++ (final (split sep b) +:+ first (split sep t)) :: tl (split sep t).
Proof.
  induction b as [|c b IH].
  - change (EmptyString +:+ t) with t. cbn [split removelast final last app].
    destruct (split sep t) eqn:Ht; [now apply split_nonempty in Ht|].
    reflexivity.
  - change (String c b +:+ t) with (String c (b +:+ t)).
    rewrite !split_cons, IH.
    destruct (split sep b) as [|p ps] eqn:Hb; [now apply split_nonempty in Hb|].
    destruct (Ascii.eqb c sep).
    + reflexivity.
    + destruct ps as [|q ps]; reflexivity.
Qed.

Lemma length_append a b :
  String.length (a +:+ b) = (String.length a + String.length b)%nat.
Proof. induction a as [|c a IH]; simpl; [reflexivity|]. now rewrite IH. Qed.

Lemma append_inj_l a b c : a +:+ b = a +:+ c -> b = c.
Proof. induction a as [|d a IH]; simpl; [auto|]. intros H. injection H. auto. Qed.

Lemma lstrip_app c b d t :
  Ascii.eqb d c = false ->
  lstrip c (b +:+ String d t) = lstrip c b +:+ String d t.
Proof.
  intros Hd. induction b as [|x b IH]; simpl.
  - now rewrite Hd.
  - destruct (Ascii.eqb x c); [exact IH|reflexivity].
Qed.

Lemma lstrip_shorter c s : (String.length (lstrip c s) <= String.length s)%nat.
Proof.
  induction s as [|x s IH]; simpl; [lia|].
  destruct (Ascii.eqb x c); simpl; lia.
Qed.

(** Text that does not begin with a slash leaves the root alone. *)
Lemma splitroot_app b d t :
  Ascii.eqb d "/" = false ->
  splitroot (b +:+ String d t) =
  (fst (splitroot b), snd (splitroot b) +:+ String d t).
Proof.
  intros Hd. unfold splitroot.
  rewrite (lstrip_app _ _ _ _ Hd), !length_append.
  pose proof (lstrip_shorter "/" b) as Hle.
  replace (String.length b + String.length (String d t)
           - (String.length (lstrip "/" b) + String.length (String d t)))%nat
    with (String.length b - String.length (lstrip "/" b))%nat by lia.
  destruct (Nat.eqb (String.length b - String.length (lstrip "/" b)) 0);
    [reflexivity|].
  destruct (Nat.eqb (String.length b - String.length (lstrip "/" b)) 2);
    reflexivity.
Qed.

(** Joining [b ++ t] onto [d], for a tail [t] that does not begin with a
    slash: the root, the leading components and the text glued before the
    tail's first piece depend on [d] and [b] only. *)
Lemma joinpath_tail d b :
  exists R P l, forall c t,
    Ascii.eqb c "/" = false ->
    d // (b +:+ String c t) =
    mkPath R (P ++ List.filter keeps
                     ((l +:+ first (split "/" (String c t)))
                        :: tl (split "/" (String c t)))).
Proof.
  set (r := fst (splitroot b)). set (b' := snd (splitroot b)).
  exists (if String.eqb r "" then root d else r),
         ((if String.eqb r "" then parts d else [])
            ++ List.filter keeps (removelast (split "/" b'))),
         (final (split "/" b')).
  intros c t Hc. unfold joinpath, parse.
  rewrite (splitroot_app _ _ _ Hc). fold r b'. cbn [root parts].
  unfold parse_parts. rewrite split_app, List.filter_app.
  destruct (String.eqb r ""); cbn [root parts]; now rewrite <- ?app_assoc.
Qed.

Lemma keeps_iff x : keeps x = true <-> x <> EmptyString /\ x <> ".".
Proof.
  unfold keeps. rewrite andb_true_iff, !negb_true_iff, !String.eqb_neq.
  reflexivity.
Qed.

Lemma keeps_glued l h :
  h <> EmptyString -> h <> "." -> keeps (l +:+ h) = true.
Proof.
  intros H0 H1. apply keeps_iff.
  destruct l as [|a l]; [now split|].
  destruct h as [|c h]; [congruence|].
  split; [discriminate|].
  destruct l; discriminate.
Qed.

(** Two file names with the same stem whose tails begin differently are
    joined to different paths. *)
Lemma joinpath_differs d b c1 t1 c2 t2 :
  Ascii.eqb c1 "/" = false -> Ascii.eqb c2 "/" = false ->
  first (split "/" (String c1 t1)) <> "." ->
  first (split "/" (String c2 t2)) <> "." ->
  first (split "/" (String c1 t1)) <> first (split "/" (String c2 t2)) ->
  d // (b +:+ String c1 t1) <> d // (b +:+ String c2 t2).
Proof.
  intros Hc1 Hc2 Hd1 Hd2 Hne Heq.
  destruct (joinpath_tail d b) as (R & P & l & Hj).
  rewrite (Hj _ _ Hc1), (Hj _ _ Hc2) in Heq.
  apply (f_equal parts) in Heq. cbn [parts] in Heq.
  apply app_inv_head in Heq.
  assert (He1 : first (split "/" (String c1 t1)) <> EmptyString)
    by (rewrite first_split_cons, Hc1; discriminate).
  assert (He2 : first (split "/" (String c2 t2)) <> EmptyString)
    by (rewrite first_split_cons, Hc2; discriminate).
  set (h1 := first (split "/" (String c1 t1))) in *.
  set (h2 := first (split "/" (String c2 t2))) in *.
  cbn [List.filter] in Heq.
  rewrite (keeps_glued l _ He1 Hd1), (keeps_glued l _ He2 Hd2) in Heq.
  injection Heq as Heq _. now apply append_inj_l in Heq.
Qed.

End PathFacts.

(* ===================================================================== *)
(** ** What each step may change *)
(* ===================================================================== *)

Lemma preserves_ret {A} (R : World -> World -> Prop) (a : A) :
  (forall σ, R σ σ) -> preserves R (ret a).
Proof. intros Hrefl σ r σ' H. injection H as _ <-. apply Hrefl. Qed.

Lemma preserves_lift {A} (R : World -> World -> Prop) (x : result A) :
  (forall σ, R σ σ) -> preserves R (lift x).
Proof. intros Hrefl σ r σ' H. injection H as _ <-. apply Hrefl. Qed.

Lemma preserves_bind {A B} (R : World -> World -> Prop)
    (c : M A) (k : A -> M B) :
  (forall σ, R σ σ) ->
  (forall σ1 σ2 σ3, R σ1 σ2 -> R σ2 σ3 -> R σ1 σ3) ->
  preserves R c -> (forall a, preserves R (k a)) -> preserves R (bind c k).
Proof.
  intros Hrefl Htrans Hc Hk σ r σ' H. unfold bind in H.
  destruct (c σ) as [[a|e] σ1] eqn:Hcσ.
  - eapply Htrans; [eapply Hc; eassumption|eapply Hk; eassumption].
  - injection H as _ <-. eapply Hc; eassumption.
Qed.

(** Composite steps are taken apart along [bind]. *)
Ltac frame_along Hrefl Htrans :=
  repeat lazymatch goal with
    | |- preserves _ (ret _) => apply preserves_ret; exact Hrefl
    | |- preserves _ (lift _) => apply preserves_lift; exact Hrefl
    | |- preserves _ (bind _ _) =>
        apply preserves_bind; [exact Hrefl | exact Htrans | | intros ?]
    end.

Section Frames.

Context {Pix : Type} (E : Env Pix).

(** **** The streams *)

Lemma only_prints_refl σ : only_prints σ σ.
Proof. split; [reflexivity|]. exists []. now rewrite app_nil_r. Qed.

Lemma only_prints_trans σ1 σ2 σ3 :
  only_prints σ1 σ2 -> only_prints σ2 σ3 -> only_prints σ1 σ3.
Proof.
  intros [He1 [l1 Ho1]] [He2 [l2 Ho2]]. split; [congruence|].
  exists (l1 ++ l2). now rewrite Ho2, Ho1, app_assoc.
Qed.

Lemma print_only_prints line : preserves only_prints (print line).
Proof.
  intros σ r σ' H. injection H as _ <-. split; [reflexivity|]. now exists [line].
Qed.

Lemma download_only_prints u : preserves only_prints (download_bytes E u).
Proof. intros σ r σ' H. injection H as _ <-. apply only_prints_refl. Qed.

Lemma mkdir_only_prints p : preserves only_prints (mkdir E p).
Proof.
  intros σ r σ' H. unfold mkdir in H.
  destruct (mkdir_fault E σ p); injection H as _ <-;
    (split; [reflexivity|]; exists []; cbn; now rewrite app_nil_r).
Qed.

Lemma write_bytes_only_prints p data : preserves only_prints (write_bytes E p data).
Proof.
  intros σ r σ' H. unfold write_bytes in H.
  destruct (write_fault E σ p) as [[e remains]|]; injection H as _ <-;
    (split; [reflexivity|]; exists []; cbn; now rewrite app_nil_r).
Qed.

Lemma Image_save_only_prints img p q : preserves only_prints (Image_save E img p q).
Proof.
  intros σ r σ' H. unfold Image_save in H.
  destruct (write_fault E σ p) as [[e remains]|];
    [|destruct (webp_encode E img q)]; injection H as _ <-;
    (split; [reflexivity|]; exists []; cbn; now rewrite app_nil_r).
Qed.

Lemma save_original_only_prints job blob :
  preserves only_prints (save_original E job blob).
Proof.
  unfold save_original. frame_along only_prints_refl only_prints_trans.
  - apply mkdir_only_prints.
  - apply write_bytes_only_prints.
Qed.

Lemma report_only_prints p : preserves only_prints (report E p).
Proof.
  unfold report. frame_along only_prints_refl only_prints_trans.
  apply print_only_prints.
Qed.

Lemma encode_webp_only_prints img p q :
  preserves only_prints (encode_webp E img p q).
Proof.
  unfold encode_webp. frame_along only_prints_refl only_prints_trans.
  - apply mkdir_only_prints.
  - apply Image_save_only_prints.
Qed.

Lemma each_width_only_prints job im ws :
  preserves only_prints (each_width E job im ws).
Proof.
  induction ws as [|w ws IH]; cbn [each_width];
    frame_along only_prints_refl only_prints_trans.
  - apply encode_webp_only_prints.
  - apply report_only_prints.
  - exact IH.
Qed.

Lemma transcode_only_prints job blob :
  preserves only_prints (transcode E job blob).
Proof.
  unfold transcode. destruct (String.eqb (format job) "png");
    frame_along only_prints_refl only_prints_trans.
  - apply write_bytes_only_prints.
  - apply report_only_prints.
  - apply each_width_only_prints.
Qed.

Lemma process_job_only_prints job : preserves only_prints (process_job E job).
Proof.
  unfold process_job. frame_along only_prints_refl only_prints_trans.
  - apply print_only_prints.
  - apply download_only_prints.
  - apply save_original_only_prints.
  - apply transcode_only_prints.
Qed.

(** **** The files *)

Lemma same_file_refl p σ : same_file p σ σ.
Proof. reflexivity. Qed.

Lemma same_file_trans p σ1 σ2 σ3 :
  same_file p σ1 σ2 -> same_file p σ2 σ3 -> same_file p σ1 σ3.
Proof. unfold same_file. congruence. Qed.

Lemma set_file_other p q v σ : q <> p -> same_file p σ (set_file q v σ).
Proof. intros Hne. unfold same_file. cbn. now apply lookup_partial_alter_ne. Qed.

Lemma set_file_here p v σ : files (set_file p v σ) !! p = v.
Proof. cbn. apply lookup_partial_alter_eq. Qed.

Lemma print_same_file p line : preserves (same_file p) (print line).
Proof. intros σ r σ' H. injection H as _ <-. reflexivity. Qed.

Lemma mkdir_same_file p d : preserves (same_file p) (mkdir E d).
Proof.
  intros σ r σ' H. unfold mkdir in H.
  destruct (mkdir_fault E σ d); injection H as _ <-; reflexivity.
Qed.

Lemma write_bytes_same_file p q data :
  q <> p -> preserves (same_file p) (write_bytes E q data).
Proof.
  intros Hne σ r σ' H. unfold write_bytes in H.
  destruct (write_fault E σ q) as [[e remains]|]; injection H as _ <-;
    now apply set_file_other.
Qed.

Lemma Image_save_same_file p img q k :
  q <> p -> preserves (same_file p) (Image_save E img q k).
Proof.
  intros Hne σ r σ' H. unfold Image_save in H.
  destruct (write_fault E σ q) as [[e remains]|];
    [|destruct (webp_encode E img k)]; injection H as _ <-;
    now apply set_file_other.
Qed.

Lemma report_same_file p q : preserves (same_file p) (report E q).
Proof.
  unfold report. frame_along (same_file_refl p) (same_file_trans p).
  apply print_same_file.
Qed.

Lemma encode_webp_same_file p img q k :
  q <> p -> preserves (same_file p) (encode_webp E img q k).
Proof.
  intros Hne. unfold encode_webp.
  frame_along (same_file_refl p) (same_file_trans p).
  - apply mkdir_same_file.
  - now apply Image_save_same_file.
Qed.

Lemma each_width_same_file p job im ws :
  (forall w, webp_path job w <> p) ->
  preserves (same_file p) (each_width E job im ws).
Proof.
  intros Hne. induction ws as [|w ws IH]; cbn [each_width];
    frame_along (same_file_refl p) (same_file_trans p).
  - now apply encode_webp_same_file.
  - apply report_same_file.
  - exact IH.
Qed.

Lemma transcode_same_file p job blob :
  png_path job <> p -> (forall w, webp_path job w <> p) ->
  preserves (same_file p) (transcode E job blob).
Proof.
  intros Hpng Hwebp. unfold transcode.
  destruct (String.eqb (format job) "png");
    frame_along (same_file_refl p) (same_file_trans p).
  - now apply write_bytes_same_file.
  - apply report_same_file.
  - now apply each_width_same_file.
Qed.

End Frames.


(* ===================================================================== *)
(** ** The archiver *)
(* ===================================================================== *)

Section Archiver.

Context {Pix : Type} (E : Env Pix).
Import Str StrFacts PurePath PathFacts.

(** The archive name never collides with the PNG copy... *)
Lemma png_path_not_original job : png_path job <> original_path job.
Proof.
  unfold png_path, original_path.
  change (base_name job +:+ ".png")
    with (base_name job +:+ String "." "png").
  change (base_name job +:+ ".orig." +:+ original_ext (url job))
    with (base_name job +:+ String "." ("orig." +:+ original_ext (url job))).
  apply joinpath_differs; try reflexivity.
  - discriminate.
  - change ("orig." +:+ original_ext (url job))
      with (String "o" ("rig." +:+ original_ext (url job))).
    rewrite !first_split_cons. cbn. discriminate.
  - change ("orig." +:+ original_ext (url job))
      with (String "o" ("rig." +:+ original_ext (url job))).
    rewrite !first_split_cons. cbn. discriminate.
Qed.

(** ... nor with any WebP derivative. *)
Lemma webp_path_not_original job w : webp_path job w <> original_path job.
Proof.
  unfold webp_path, original_path.
  change (base_name job +:+ "-" +:+ pretty w +:+ ".webp")
    with (base_name job +:+ String "-" (pretty w +:+ ".webp")).
  change (base_name job +:+ ".orig." +:+ original_ext (url job))
    with (base_name job +:+ String "." (String "o" ("rig." +:+ original_ext (url job)))).
  apply joinpath_differs; try reflexivity.
  - rewrite first_split_cons. cbn. discriminate.
  - rewrite !first_split_cons. cbn. discriminate.
  - rewrite !first_split_cons. cbn. discriminate.
Qed.

(** A successful [save_original]: where it wrote, what it wrote, and
    that nothing else moved. *)
Lemma save_original_ok job blob σ p σ' :
  save_original E job blob σ = (Ok p, σ') ->
  p = original_path job /\
  files σ' = <[original_path job := blob]> (files σ) /\
  stdout σ' = stdout σ /\ stderr σ' = stderr σ.
Proof.
  unfold save_original, bind, mkdir, write_bytes, ret.
  destruct (mkdir_fault E σ (out_dir job)); [discriminate|].
  destruct (write_fault E _ (original_path job)) as [[e remains]|];
    [discriminate|].
  intros H. injection H as <- <-. cbn. auto.
Qed.

Lemma process_job_unfold job σ blob :
  urlopen_read E (announced job σ) (url job) = Ok blob ->
  process_job E job σ =
  (run! _ := save_original E job blob in transcode E job blob) (announced job σ).
Proof.
  intros Hnet. unfold process_job at 1. unfold bind at 1. cbn [print].
  unfold bind at 1. unfold download_bytes at 1.
  unfold announced in Hnet. cbn [print snd] in Hnet. now rewrite Hnet.
Qed.

(** C6. After a successful fetch the archiver always runs, and it runs
    before anything of the transcoder: the job is the archiver followed
    by the transcoder. Once the archiver has written the original, the
    transcoder starts from that world, and whatever it does afterwards,
    raise included, the archived bytes are still at the archive path. *)
Theorem archive_precedes_and_survives_transcoding
    job σ blob :
  urlopen_read E (announced job σ) (url job) = Ok blob ->
  process_job E job σ =
    (run! _ := save_original E job blob in transcode E job blob)
      (announced job σ)
  /\
  forall p σ2 r σ',
    save_original E job blob (announced job σ) = (Ok p, σ2) ->
    process_job E job σ = (r, σ') ->
    p = original_path job /\
    files σ2 !! p = Some blob /\
    transcode E job blob σ2 = (r, σ') /\
    files σ' !! p = Some blob.
Proof.
  intros Hnet. pose proof (process_job_unfold job σ blob Hnet) as Hrun.
  split; [exact Hrun|].
  intros p σ2 r σ' Hsave Hjob.
  rewrite Hrun in Hjob. unfold bind in Hjob at 1. rewrite Hsave in Hjob.
  destruct (save_original_ok _ _ _ _ _ Hsave) as (-> & Hfiles & _ & _).
  assert (Hthere : files σ2 !! original_path job = Some blob)
    by (rewrite Hfiles; apply lookup_insert_eq).
  repeat split; try assumption.
  rewrite <- Hthere.
  apply (transcode_same_file E (original_path job) job blob
           (png_path_not_original job)
           (fun w => webp_path_not_original job w) _ _ _ Hjob).
Qed.

End Archiver.

(* ===================================================================== *)
(** ** The transcoder *)
(* ===================================================================== *)

Section Transcoder.

Context {Pix : Type} (E : Env Pix).
Import Str StrFacts PurePath PathFacts.

Lemma is_prefix_app a b : is_prefix a (a ++ b) = true.
Proof.
  induction a as [|x a IH]; [reflexivity|].
  cbn. now rewrite String.eqb_refl, IH.
Qed.

(** A path made by joining plain names onto [ROOT] is reported relative
    to [ROOT]. *)
Lemma relative_to_under (d : Path) (names : list string) :
  relative_to (mkPath (root d) (parts d ++ names)) d = Ok (mkPath "" names).
Proof.
  unfold relative_to. cbn [root parts].
  rewrite String.eqb_refl, is_prefix_app. cbn [andb].
  now rewrite drop_app_length.
Qed.

Lemma normalise_mode_keeps (im : Image Pix) :
  mode im = "RGB" \/ mode im = "RGBA" -> normalise_mode E im = Ok im.
Proof.
  unfold normalise_mode. intros [-> | ->]; reflexivity.
Qed.

Lemma normalise_mode_converts (im : Image Pix) :
  mode im <> "RGB" -> mode im <> "RGBA" ->
  normalise_mode E im =
  Image_convert E im (if bool_decide ("A" ∈ bands im) then "RGBA" else "RGB").
Proof.
  intros H1 H2. unfold normalise_mode.
  apply String.eqb_neq in H1, H2. now rewrite H1, H2.
Qed.

Lemma Image_convert_ok (im im' : Image Pix) m :
  Image_convert E im m = Ok im' ->
  mode im' = m /\ width im' = width im /\ height im' = height im.
Proof.
  unfold Image_convert.
  destruct (convert_data E im m) as [bp|e]; [|discriminate].
  cbn. intros H. now injection H as <-.
Qed.

Lemma normalise_mode_ok (im im' : Image Pix) :
  normalise_mode E im = Ok im' ->
  (mode im' = "RGB" \/ mode im' = "RGBA") /\
  width im' = width im /\ height im' = height im.
Proof.
  destruct (String.eqb_spec (mode im) "RGB") as [Hrgb|Hrgb].
  { rewrite normalise_mode_keeps by tauto. intros H. injection H as <-. tauto. }
  destruct (String.eqb_spec (mode im) "RGBA") as [Hrgba|Hrgba].
  { rewrite normalise_mode_keeps by tauto. intros H. injection H as <-. tauto. }
  rewrite normalise_mode_converts by assumption.
  intros H. apply Image_convert_ok in H as (Hm & Hw & Hh).
  split; [|tauto]. destruct (bool_decide ("A" ∈ bands im)); tauto.
Qed.

Lemma transcode_webp job blob im σ :
  format job <> "png" -> Image_open E blob = Ok im ->
  transcode E job blob σ =
  (run! im' := lift (normalise_mode E im) in
   each_width E job im' (widths job)) σ.
Proof.
  intros Hfmt Hopen. unfold transcode.
  apply String.eqb_neq in Hfmt. rewrite Hfmt.
  unfold bind at 1, lift at 1. now rewrite Hopen.
Qed.


(** The PNG branch: the fetched bytes are copied, nothing is decoded. *)
Lemma transcode_png job blob σ names :
  format job = "png" ->
  write_fault E σ (png_path job) = None ->
  png_path job = mkPath (root (ROOT E)) (parts (ROOT E) ++ names) ->
  transcode E job blob σ =
  (Ok tt,
   mkWorld (<[png_path job := blob]> (files σ)) (dirs σ)
           (stdout σ ++ ["  -> " +:+ to_str (mkPath "" names)]) (stderr σ)).
Proof.
  intros Hfmt Hw Hpath. unfold transcode.
  apply String.eqb_eq in Hfmt. rewrite Hfmt.
  unfold bind at 1, write_bytes. rewrite Hw.
  unfold report, bind, lift. rewrite Hpath, relative_to_under.
  rewrite <- Hpath. reflexivity.
Qed.

(** C9. A WebP job with no widths at all is not turned away: once the
    download, the archive write, the decoding and the mode normalisation
    have gone through, the job ends without raising; the archived
    original is the only file written, and only the announcement was
    printed. *)
Theorem empty_widths_job_completes job σ blob p σ2 im0 im :
  format job = "webp" ->
  widths job = [] ->
  urlopen_read E (announced job σ) (url job) = Ok blob ->
  save_original E job blob (announced job σ) = (Ok p, σ2) ->
  Image_open E blob = Ok im0 ->
  normalise_mode E im0 = Ok im ->
  process_job E job σ = (Ok tt, σ2) /\
  p = original_path job /\
  files σ2 = <[original_path job := blob]> (files σ) /\
  stdout σ2 = stdout σ ++ ["Baixando: " +:+ url job] /\
  stderr σ2 = stderr σ.
Proof.
  intros Hfmt Hws Hnet Hsave Hopen Hnorm.
  rewrite (process_job_unfold E job σ blob Hnet).
  unfold bind at 1. rewrite Hsave.
  destruct (save_original_ok E _ _ _ _ _ Hsave) as (Hp & Hfiles & Hout & Herr).
  repeat split; try assumption.
  assert (Hnot : String.eqb (format job) "png" = false) by now rewrite Hfmt.
  unfold transcode. rewrite Hnot.
  unfold bind, lift. rewrite Hopen, Hnorm, Hws. reflexivity.
Qed.

(** C5, amended. A job named "logo-voll-grupo" on the logo's URL whose
    format is "png" yields two files and no more, both holding exactly
    the fetched bytes: [logo-voll-grupo.orig.png] and
    [logo-voll-grupo.png] under the images directory. Nothing is decoded,
    resized or encoded, whatever the job's widths and quality. *)
Theorem logo_png_job_copies_source (ws : list Z) (q : Z) σ blob p σ2 :
  let job := mkImageJob (site +:+ "2019/02/voll-pilates.png")
               (OUT_IMAGES E) "logo-voll-grupo" ws "png" q in
  urlopen_read E (announced job σ) (url job) = Ok blob ->
  save_original E job blob (announced job σ) = (Ok p, σ2) ->
  write_fault E σ2 (png_path job) = None ->
  exists σ',
    process_job E job σ = (Ok tt, σ') /\
    p = OUT_IMAGES E // "logo-voll-grupo.orig.png" /\
    files σ' =
      <[OUT_IMAGES E // "logo-voll-grupo.png" := blob]>
        (<[OUT_IMAGES E // "logo-voll-grupo.orig.png" := blob]> (files σ)) /\
    stdout σ' = stdout σ ++ ["Baixando: " +:+ url job;
                             "  -> assets/images/logo-voll-grupo.png"] /\
    stderr σ' = stderr σ.
Proof.
  intros job Hnet Hsave Hw.
  rewrite (process_job_unfold E job σ blob Hnet).
  unfold bind at 1. rewrite Hsave.
  destruct (save_original_ok E _ _ _ _ _ Hsave) as (Hp & Hfiles & Hout & Herr).
  rewrite (transcode_png job blob σ2 ["assets"; "images"; "logo-voll-grupo.png"]
             eq_refl Hw).
  - assert (Horig : original_path job = OUT_IMAGES E // "logo-voll-grupo.orig.png").
    { unfold original_path.
      replace (original_ext (url job)) with "png" by (vm_compute; reflexivity).
      reflexivity. }
    eexists. split; [reflexivity|]. cbn [files stdout stderr].
    rewrite Hfiles, Hout, Herr, Hp, Horig.
    split; [reflexivity|]. split; [reflexivity|]. split; [|reflexivity].
    unfold announced. cbn [print snd stdout]. now rewrite <- app_assoc.
  - unfold png_path, job, OUT_IMAGES. cbn [base_name out_dir].
    change ("logo-voll-grupo" +:+ ".png") with "logo-voll-grupo.png".
    unfold joinpath.
    change (parse "assets") with (mkPath "" ["assets"]).
    change (parse "images") with (mkPath "" ["images"]).
    change (parse "logo-voll-grupo.png") with (mkPath "" ["logo-voll-grupo.png"]).
    cbn. now rewrite <- !app_assoc.
Qed.

End Transcoder.

(* ===================================================================== *)
(** ** Failures surface *)
(* ===================================================================== *)

(** [process_job] has no handler of its own: what a stage raises is what
    the job raises, and the world is left as that stage left it. *)
Section Failures.

Context {Pix : Type} (E : Env Pix).

(** A failed download: nothing is archived, nothing is derived. *)
Lemma fetch_failure_surfaces job σ e :
  urlopen_read E (announced job σ) (url job) = Raise e ->
  process_job E job σ = (Raise e, announced job σ) /\
  files (announced job σ) = files σ.
Proof.
  intros Hnet. split; [|reflexivity].
  unfold process_job. unfold bind at 1. cbn [print].
  unfold bind at 1, download_bytes at 1.
  unfold announced in Hnet. cbn [print snd] in Hnet. now rewrite Hnet.
Qed.

Lemma archive_failure_surfaces job σ blob e σ2 :
  urlopen_read E (announced job σ) (url job) = Ok blob ->
  save_original E job blob (announced job σ) = (Raise e, σ2) ->
  process_job E job σ = (Raise e, σ2).
Proof.
  intros Hnet Hsave. rewrite (process_job_unfold E job σ blob Hnet).
  unfold bind at 1. now rewrite Hsave.
Qed.

Lemma decode_failure_surfaces job blob σ e :
  format job <> "png" -> Image_open E blob = Raise e ->
  transcode E job blob σ = (Raise e, σ).
Proof.
  intros Hfmt Hopen. unfold transcode.
  apply String.eqb_neq in Hfmt. rewrite Hfmt.
  unfold bind at 1, lift at 1. now rewrite Hopen.
Qed.

Lemma resize_failure_surfaces job im w rest σ e :
  resize_to_width E im w = Raise e ->
  each_width E job im (w :: rest) σ = (Raise e, σ).
Proof.
  intros Hr. cbn [each_width]. unfold bind at 1, lift at 1. now rewrite Hr.
Qed.

Lemma encode_failure_surfaces job im w rest σ r e :
  resize_to_width E im w = Ok r ->
  mkdir_fault E σ (PurePath.parent (webp_path job w)) = None ->
  write_fault E (add_dirs (PurePath.parent (webp_path job w)) σ)
    (webp_path job w) = None ->
  webp_encode E r (quality job) = Raise e ->
  fst (each_width E job im (w :: rest) σ) = Raise e.
Proof.
  intros Hr Hmk Hw Henc. cbn [each_width].
  unfold bind at 1, lift at 1. rewrite Hr.
  unfold bind at 1. unfold encode_webp, bind at 1, mkdir. rewrite Hmk.
  unfold Image_save. now rewrite Hw, Henc.
Qed.

End Failures.

(* ===================================================================== *)
(** ** The job runner *)
(* ===================================================================== *)

Section Runner.

Context {Pix : Type} (E : Env Pix).

Lemma job_loop_app a b k σ :
  job_loop E (a ++ b) k σ =
  job_loop E b (fst (job_loop E a k σ)) (snd (job_loop E a k σ)).
Proof.
  revert k σ. induction a as [|job a IH]; intros k σ; [reflexivity|].
  cbn [app job_loop].
  destruct (process_job E job σ) as [[u|exc] σ']; apply IH.
Qed.

(** A job first announces itself, then only adds to the output stream. *)
Lemma process_job_announces job σ r σ' :
  process_job E job σ = (r, σ') ->
  stderr σ' = stderr σ /\
  exists l, stdout σ' = stdout σ ++ ("Baixando: " +:+ url job) :: l.
Proof.
  unfold process_job. unfold bind at 1. cbn [print].
  intros H.
  assert (Hrest : only_prints
            (mkWorld (files σ) (dirs σ)
                     (stdout σ ++ ["Baixando: " +:+ url job]) (stderr σ)) σ').
  { revert H. generalize (mkWorld (files σ) (dirs σ)
                     (stdout σ ++ ["Baixando: " +:+ url job]) (stderr σ)).
    intros σ1 H. revert σ1 r σ' H.
    change (preserves only_prints
              (run! blob := download_bytes E (url job) in
               run! _ := save_original E job blob in
               transcode E job blob)).
    frame_along only_prints_refl only_prints_trans.
    - apply download_only_prints.
    - apply save_original_only_prints.
    - apply transcode_only_prints. }
  destruct Hrest as [He [l Hl]]. cbn in He, Hl. split; [exact He|].
  exists l. now rewrite Hl, <- app_assoc.
Qed.

Lemma handled_streams job r σ :
  stdout (handled job r σ) = stdout σ.
Proof. now destruct r. Qed.

Lemma job_loop_handled job rest k σ r σ' :
  process_job E job σ = (r, σ') ->
  job_loop E (job :: rest) k σ =
  job_loop E rest (match r with Ok _ => k | Raise _ => k + 1 end)
           (handled job r σ').
Proof. intros H. cbn [job_loop]. rewrite H. now destruct r. Qed.

(** The output stream only grows along the loop. *)
Lemma job_loop_stdout js k σ :
  exists l, stdout (snd (job_loop E js k σ)) = stdout σ ++ l.
Proof.
  revert k σ. induction js as [|job js IH]; intros k σ.
  - exists []. cbn. now rewrite app_nil_r.
  - destruct (process_job E job σ) as [r σ'] eqn:Hjob.
    rewrite (job_loop_handled _ _ _ _ _ _ Hjob).
    destruct (process_job_announces _ _ _ _ Hjob) as [_ [l Hl]].
    destruct (IH (match r with Ok _ => k | Raise _ => k + 1 end)
                 (handled job r σ')) as [l' Hl'].
    rewrite Hl', handled_streams, Hl. rewrite <- app_assoc. eauto.
Qed.

(** Every job of the list gets its turn. *)
Lemma job_loop_announces js k σ j :
  j ∈ js -> ("Baixando: " +:+ url j) ∈ stdout (snd (job_loop E js k σ)).
Proof.
  revert k σ. induction js as [|job js IH]; intros k σ Hin.
  - now apply elem_of_nil in Hin.
  - destruct (process_job E job σ) as [r σ'] eqn:Hjob.
    rewrite (job_loop_handled _ _ _ _ _ _ Hjob).
    apply elem_of_cons in Hin as [->|Hin]; [|now apply IH].
    destruct (process_job_announces _ _ _ _ Hjob) as [_ [l Hl]].
    destruct (job_loop_stdout js (match r with Ok _ => k | Raise _ => k + 1 end)
                (handled job r σ')) as [l' Hl'].
    rewrite Hl', handled_streams, Hl.
    apply elem_of_app. left. apply elem_of_app. right. apply list_elem_of_here.
Qed.

(** The counter and the error stream at the end of the loop. *)
Lemma job_loop_counts js k σ :
  fst (job_loop E js k σ) = k + failure_count (outcomes E js σ) /\
  stderr (snd (job_loop E js k σ)) = stderr σ ++ error_lines (outcomes E js σ).
Proof.
  revert k σ. induction js as [|job js IH]; intros k σ.
  - cbn. unfold failure_count. cbn. split; [lia|now rewrite app_nil_r].
  - destruct (process_job E job σ) as [r σ'] eqn:Hjob.
    rewrite (job_loop_handled _ _ _ _ _ _ Hjob).
    cbn [outcomes]. rewrite Hjob.
    destruct (process_job_announces _ _ _ _ Hjob) as [Herr _].
    destruct (IH (match r with Ok _ => k | Raise _ => k + 1 end)
                 (handled job r σ')) as [IHn IHe].
    rewrite IHn, IHe. unfold failure_count, error_lines, failed.
    destruct r as [u|exc]; cbn [List.filter has_failed snd fst map length handled].
    + now rewrite Herr.
    + cbn [eprint stderr]. rewrite Herr, <- app_assoc. split; [lia|reflexivity].
Qed.

(** C1. Whatever exception a job's pipeline raises, at whatever stage, the
    loop catches it: the run goes on with the jobs that follow, the error
    stream gains exactly one line, made of the job's URL and the
    exception's message, and the failure counter goes up by exactly one.
    Every job after the failed one is still started, and the final count
    is the count so far, plus one, plus the failures among the later
    jobs. *)
Theorem job_failure_is_contained before job after k n σ0 σ exc σ' :
  job_loop E before k σ0 = (n, σ) ->
  process_job E job σ = (Raise exc, σ') ->
  let σ'' := eprint (error_line job exc) σ' in
  job_loop E (before ++ job :: after) k σ0 = job_loop E after (n + 1) σ'' /\
  stderr σ'' = stderr σ ++ ["ERRO em " +:+ url job +:+ ": " +:+ exc_str exc] /\
  (forall j, j ∈ after ->
     ("Baixando: " +:+ url j)
       ∈ stdout (snd (job_loop E (before ++ job :: after) k σ0))) /\
  fst (job_loop E (before ++ job :: after) k σ0)
    = n + 1 + failure_count (outcomes E after σ'').
Proof.
  intros Hbefore Hjob σ''.
  assert (Hrun : job_loop E (before ++ job :: after) k σ0
                 = job_loop E after (n + 1) σ'').
  { rewrite job_loop_app, Hbefore. cbn [fst snd].
    now rewrite (job_loop_handled _ _ _ _ _ _ Hjob). }
  split; [exact Hrun|]. split.
  { destruct (process_job_announces _ _ _ _ Hjob) as [Herr _].
    subst σ''. cbn [eprint stderr]. now rewrite Herr. }
  split.
  - intros j Hin. rewrite Hrun. now apply job_loop_announces.
  - rewrite Hrun. apply job_loop_counts.
Qed.

(** C4. The value handed to [SystemExit] is 0 when no job failed and 2
    when at least one did. In the second case the error stream ends with
    one line per failed job followed by the summary, which carries the
    exact number of failed jobs; with exactly two failures it reads
    "Concluído com 2 falha(s)." and the status is 2. *)
Theorem exit_status_reports_failures js σ :
  let o := outcomes E js σ in
  let n := failure_count o in
  let code := fst (main_on E js σ) in
  let σ' := snd (main_on E js σ) in
  (n = 0 ->
     code = 0 /\ stderr σ' = stderr σ /\
     List.last (stdout σ') EmptyString = "Concluído.") /\
  (n <> 0 ->
     code = 2 /\
     stderr σ' = stderr σ ++ error_lines o
                   ++ ["Concluído com " +:+ pretty n +:+ " falha(s)."]) /\
  (n = 2 ->
     code = 2 /\
     List.last (stderr σ') EmptyString = "Concluído com 2 falha(s).") /\
  length (error_lines o) = Z.to_nat n.
Proof.
  intros o n code σ'. subst code σ'. unfold main_on.
  destruct (job_loop_counts js 0 σ) as [Hn He]. fold o in Hn, He.
  destruct (job_loop E js 0 σ) as [failures σf]. cbn [fst snd] in Hn, He.
  rewrite Z.add_0_l in Hn. fold n in Hn. subst failures.
  assert (Hlen : length (error_lines o) = Z.to_nat n).
  { unfold n, failure_count, error_lines. rewrite length_map. lia. }
  destruct (Z.eqb_spec n 0) as [H0|H0]; cbn [negb fst snd].
  - split; [intros _|split; [intros Hn; contradiction|split; [intros H2; lia|exact Hlen]]].
    split; [reflexivity|]. split.
    + cbn [print stderr snd]. rewrite He.
      destruct (error_lines o); [now rewrite app_nil_r|].
      rewrite H0 in Hlen. discriminate.
    + cbn [print stdout snd]. apply last_last.
  - split; [intros Hn; contradiction|].
    split; [intros _|split; [intros H2|exact Hlen]].
    + split; [reflexivity|].
      cbn [eprint stderr]. unfold summary_line. now rewrite He, <- app_assoc.
    + split; [reflexivity|].
      cbn [eprint stderr]. unfold summary_line. rewrite H2. apply last_last.
Qed.

End Runner.

(* ===================================================================== *)
(** ** The archive extension *)
(* ===================================================================== *)

Section Extension.

Import Str StrFacts PurePath PathFacts.

(** The code's extension is the text after the last dot of the URL
    without its query string and fragment. *)
Lemma original_ext_after_last u :
  original_ext u = lower (after_last "." (strip_query_fragment u)).
Proof. unfold original_ext. now rewrite first_split_twice, final_split. Qed.

(** Where a character occurs, the text splits at its last occurrence. *)
Lemma after_last_decompose c s :
  contains c s = true ->
  exists pre, s = pre +:+ String c (after_last c s) /\
              contains c (after_last c s) = false.
Proof.
  induction s as [|d s IH]; [discriminate|].
  cbn [contains after_last]. intros H.
  destruct (contains c s) eqn:Hs.
  - destruct (IH eq_refl) as (pre & Hpre & Hno).
    exists (String d pre). split; [|exact Hno].
    change (String d s = String d (pre +:+ String c (after_last c s))).
    f_equal. exact Hpre.
  - rewrite orb_false_r in H. rewrite H.
    apply Ascii.eqb_eq in H as ->. now exists EmptyString.
Qed.

(** When the final path segment has a dot, the code's extension is that
    segment's extension, as the specification has it. *)
Lemma original_ext_agrees u :
  contains "." (after_last "/" (strip_query_fragment u)) = true ->
  original_ext u = claimed_ext u.
Proof.
  intros Hdot. rewrite original_ext_after_last. unfold claimed_ext.
  rewrite Hdot. f_equal.
  generalize dependent (strip_query_fragment u). intros s Hdot.
  destruct (after_last_decompose "." _ Hdot) as (x & Hseg & Hno).
  destruct (contains "/" s) eqn:Hslash.
  - destruct (after_last_decompose "/" _ Hslash) as (pre & Hs & _).
    remember (after_last "/" s) as seg eqn:Eseg.
    remember (after_last "." seg) as y eqn:Ey.
    rewrite Hs, Hseg.
    replace (pre +:+ String "/" (x +:+ String "." y))
      with ((pre +:+ String "/" x) +:+ String "." y).
    + now apply after_last_app.
    + now rewrite append_assoc.
  - now rewrite (after_last_absent _ _ Hslash).
Qed.



(** A name that does not begin with a slash is appended to the directory. *)
Lemma joinpath_relative d c r :
  Ascii.eqb c "/" = false ->
  d // String c r = mkPath (root d) (parts d ++ parse_parts (String c r)).
Proof.
  intros Hc. unfold joinpath, parse, splitroot.
  cbn [lstrip]. rewrite Hc, Nat.sub_diag. reflexivity.
Qed.



End Extension.

(* ===================================================================== *)
(** ** Concrete runs *)
(* ===================================================================== *)

Lemma pair_of_fst {A B} (x : A * B) (a : A) : fst x = a -> x = (a, snd x).
Proof. intros <-. apply surjective_pairing. Defined.

(** Conjunctions are taken apart and each part is settled by evaluation. *)
Ltac conjuncts :=
  repeat lazymatch goal with |- _ /\ _ => split end.

Ltac by_evaluation := conjuncts; vm_compute; reflexivity.

Section Examples.

Import Str PurePath.

(** Every URL of the job list ends in a proper extension, so for the
    listed jobs the code's extension is the specification's. *)
Lemma listed_jobs_have_extensions {Pix} (E : Env Pix) :
  forallb (fun j => String.eqb (original_ext (url j)) (claimed_ext (url j)))
          (jobs E) = true.
Proof. vm_compute. reflexivity. Qed.


(** C5, as worded, fails: the job list's "logo-voll-grupo" entry leaves
    [format] at its default, so it goes through the WebP branch. With a
    source that decodes, it writes the archived original and two WebP
    derivatives, and no [logo-voll-grupo.png]. *)
Lemma logo_job_counterexample :
  let E := palette_env in
  let job := nth 6 (jobs E) no_job in
  let σ' := snd (process_job E job empty_world) in
  base_name job = "logo-voll-grupo" /\
  format job = "webp" /\
  fst (process_job E job empty_world) = Ok tt /\
  files σ' !! (OUT_IMAGES E // "logo-voll-grupo.png") = None /\
  files σ' !! (OUT_IMAGES E // "logo-voll-grupo.orig.png") = Some demo_blob /\
  files σ' !! (OUT_IMAGES E // "logo-voll-grupo-200.webp") = Some demo_webp /\
  files σ' !! (OUT_IMAGES E // "logo-voll-grupo-400.webp") = Some demo_webp /\
  size (files σ') = 3%nat.
Proof. cbv zeta. by_evaluation. Qed.


(** A base name that begins with a slash discards the destination
    directory altogether, wherever the extension's slash is. *)
Lemma rooted_base_name_example :
  let job := job_of "https://example.com/x" (mkPath "/" ["logo.orig.com"])
               "/logo" [] 78 in
  original_ext (url job) = "com/x" /\
  is_child_of (out_dir job) (original_path job).
Proof.
  cbv zeta. split; [vm_compute; reflexivity|].
  exists "x". vm_compute. reflexivity.
Qed.

(** The specification's end-to-end scenario: a 1920 x 1080 source and
    widths 640 and 960. *)
Lemma hero_scenario :
  let job := job_of "https://example.com/media/hero.webp"
               (OUT_IMAGES plain_env) "hero" [640; 960] 76 in
  let σ' := snd (process_job plain_env job empty_world) in
  fst (process_job plain_env job empty_world) = Ok tt /\
  files σ' !! (OUT_IMAGES plain_env // "hero.orig.webp") = Some demo_blob /\
  files σ' !! (OUT_IMAGES plain_env // "hero-640.webp") = Some demo_webp /\
  files σ' !! (OUT_IMAGES plain_env // "hero-960.webp") = Some demo_webp /\
  size (files σ') = 3%nat /\
  scaled_height (demo_image 1920 1080 "RGB" ["R"; "G"; "B"]) 640 = Ok 360 /\
  scaled_height (demo_image 1920 1080 "RGB" ["R"; "G"; "B"]) 960 = Ok 540 /\
  stdout σ' = ["Baixando: https://example.com/media/hero.webp";
               "  -> assets/images/hero-640.webp";
               "  -> assets/images/hero-960.webp"].
Proof. cbv zeta. by_evaluation. Qed.

End Examples.

(* ===================================================================== *)
(** ** The theorems at work on concrete runs *)
(* ===================================================================== *)

(** The fourth listed job meets a 404: the loop goes on with the
    seventeen jobs that follow it. *)
Lemma job_failure_is_contained_witness :
  let E := flaky_env in
  let before := firstn 3 (jobs E) in
  let job := nth 3 (jobs E) no_job in
  let after := skipn 4 (jobs E) in
  let σ := snd (job_loop E before 0 empty_world) in
  let σ' := snd (process_job E job σ) in
  let σ'' := eprint (error_line job not_found) σ' in
  job_loop E (before ++ job :: after) 0 empty_world
    = job_loop E after (0 + 1) σ'' /\
  stderr σ'' = stderr σ
                 ++ ["ERRO em " +:+ url job +:+ ": " +:+ exc_str not_found] /\
  (forall j, j ∈ after ->
     ("Baixando: " +:+ url j)
       ∈ stdout (snd (job_loop E (before ++ job :: after) 0 empty_world))) /\
  fst (job_loop E (before ++ job :: after) 0 empty_world)
    = 0 + 1 + failure_count (outcomes E after σ'').
Proof.
  cbv zeta.
  apply (job_failure_is_contained flaky_env
           (firstn 3 (jobs flaky_env)) (nth 3 (jobs flaky_env) no_job)
           (skipn 4 (jobs flaky_env)) 0 0 empty_world).
  - apply pair_of_fst. vm_compute. reflexivity.
  - apply pair_of_fst. vm_compute. reflexivity.
Defined.

(** The logo's URL run as a PNG job. *)
Lemma logo_png_job_copies_source_witness :
  let E := plain_env in
  let job := mkImageJob (site +:+ "2019/02/voll-pilates.png")
               (OUT_IMAGES E) "logo-voll-grupo" [200; 400] "png" 82 in
  exists σ',
    process_job E job empty_world = (Ok tt, σ') /\
    original_path job = OUT_IMAGES E // "logo-voll-grupo.orig.png" /\
    files σ' =
      <[OUT_IMAGES E // "logo-voll-grupo.png" := demo_blob]>
        (<[OUT_IMAGES E // "logo-voll-grupo.orig.png" := demo_blob]>
           (files empty_world)) /\
    stdout σ' = stdout empty_world
                  ++ ["Baixando: " +:+ url job;
                      "  -> assets/images/logo-voll-grupo.png"] /\
    stderr σ' = stderr empty_world.
Proof.
  cbv zeta.
  apply (logo_png_job_copies_source plain_env [200; 400] 82 empty_world
           demo_blob _ _ eq_refl eq_refl eq_refl).
Defined.

(** A payload the decoder turns down: the job fails, the archive stays. *)
Lemma archive_precedes_and_survives_transcoding_witness :
  let E := undecodable_env in
  let job := job_of "https://example.com/a/photo.JPG?v=2"
               (OUT_IMAGES E) "photo" [320] 80 in
  fst (process_job E job empty_world)
    = Raise (mkExc "UnidentifiedImageError" "cannot identify image file") /\
  files (snd (process_job E job empty_world))
    !! (OUT_IMAGES E // "photo.orig.jpg") = Some demo_blob.
Proof.
  cbv zeta.
  split; [vm_compute; reflexivity|].
  set (job := job_of "https://example.com/a/photo.JPG?v=2"
                (OUT_IMAGES undecodable_env) "photo" [320] 80).
  pose proof (archive_precedes_and_survives_transcoding undecodable_env
                job empty_world demo_blob eq_refl) as [_ H].
  assert (Hsave : save_original undecodable_env job demo_blob
                    (announced job empty_world)
                  = (Ok (OUT_IMAGES undecodable_env // "photo.orig.jpg"),
                     snd (save_original undecodable_env job demo_blob
                            (announced job empty_world))))
    by (vm_compute; reflexivity).
  exact (proj2 (proj2 (proj2 (H _ _ _ _ Hsave (surjective_pairing _))))).
Defined.

(** A paletted icon asked for at no width at all. *)
Lemma empty_widths_job_completes_witness :
  let E := palette_env in
  let job := job_of "https://example.com/a/icon.png" (OUT_ICONS E) "icon" [] 80 in
  let σ2 := snd (save_original E job demo_blob (announced job empty_world)) in
  process_job E job empty_world = (Ok tt, σ2) /\
  original_path job = original_path job /\
  files σ2 = <[original_path job := demo_blob]> (files empty_world) /\
  stdout σ2 = stdout empty_world ++ ["Baixando: " +:+ url job] /\
  stderr σ2 = stderr empty_world.
Proof.
  cbv zeta.
  apply (empty_widths_job_completes palette_env
           (job_of "https://example.com/a/icon.png" (OUT_ICONS palette_env)
              "icon" [] 80)
           empty_world demo_blob _ _
           (demo_image 500 250 "PA" ["P"; "A"])
           (demo_image 500 250 "RGBA" ["R"; "G"; "B"; "A"])).
  - reflexivity.
  - reflexivity.
  - reflexivity.
  - vm_compute. reflexivity.
  - reflexivity.
  - reflexivity.
Defined.

(** The listed jobs with two assets gone: status 2 and a summary of 2. *)
Lemma exit_status_reports_failures_witness :
  failure_count (outcomes flaky_env (jobs flaky_env) empty_world) = 2 /\
  fst (main flaky_env empty_world) = 2 /\
  List.last (stderr (snd (main flaky_env empty_world))) EmptyString
    = "Concluído com 2 falha(s)." /\
  length (stderr (snd (main flaky_env empty_world))) = 3%nat.
Proof.
  assert (H2 : failure_count (outcomes flaky_env (jobs flaky_env) empty_world) = 2)
    by (vm_compute; reflexivity).
  destruct (exit_status_reports_failures flaky_env (jobs flaky_env) empty_world)
    as (_ & _ & Htwo & _).
  destruct (Htwo H2) as [Hcode Hlast].
  split; [exact H2|]. split; [exact Hcode|]. split; [exact Hlast|].
  vm_compute. reflexivity.
Defined.

(** The listed jobs on a network without faults: status 0. *)
Lemma clean_run_example :
  fst (main plain_env empty_world) = 0 /\
  stderr (snd (main plain_env empty_world)) = [] /\
  size (files (snd (main plain_env empty_world))) = 79%nat.
Proof. by_evaluation. Qed.




(* ===================================================================== *)
(** ** Further properties: file names *)
(* ===================================================================== *)

Section Names.

Import Str StrFacts PurePath PathFacts.

Lemma pretty_N_char_not_slash x : Ascii.eqb (pretty_N_char x) "/" = false.
Proof. unfold pretty_N_char. repeat case_match; reflexivity. Qed.

Lemma pretty_N_go_no_slash x s :
  contains "/" (pretty_N_go x s) = contains "/" s.
Proof.
  revert s. induction (N.lt_wf_0 x) as [x _ IH]; intros s.
  destruct (N.eq_dec x 0%N) as [->|Hx]; [now rewrite pretty_N_go_0|].
  rewrite pretty_N_go_step by lia.
  rewrite IH by (apply N.div_lt; lia).
  cbn [contains]. now rewrite pretty_N_char_not_slash.
Qed.

(** A decimal numeral holds no slash. *)
Lemma pretty_Z_no_slash (w : Z) : contains "/" (pretty w) = false.
Proof.
  assert (HN : forall n : N, contains "/" (pretty n) = false).
  { intros n. unfold pretty, pretty_N. case_decide; [reflexivity|].
    now rewrite pretty_N_go_no_slash. }
  assert (HP : forall p : positive, contains "/" (pretty p) = false)
    by (intros p; exact (HN (N.pos p))).
  destruct w as [|p|p]; [reflexivity|apply HP|].
  change (pretty (Z.neg p)) with (String "-" (pretty p)).
  cbn [contains]. now rewrite HP.
Qed.

Lemma append_inj_r a b c : a +:+ c = b +:+ c -> a = b.
Proof.
  revert b. induction a as [|x a IH]; intros [|y b] H.
  - reflexivity.
  - apply (f_equal String.length) in H.
    change (EmptyString +:+ c) with c in H.
    change (String y b +:+ c) with (String y (b +:+ c)) in H.
    cbn [String.length] in H. rewrite length_append in H. lia.
  - apply (f_equal String.length) in H.
    change (EmptyString +:+ c) with c in H.
    change (String x a +:+ c) with (String x (a +:+ c)) in H.
    cbn [String.length] in H. rewrite length_append in H. lia.
  - change (String x (a +:+ c) = String y (b +:+ c)) in H.
    injection H as -> H. f_equal. now apply IH.
Qed.

Lemma webp_tail_first (w : Z) :
  first (split "/" (String "-" (pretty w +:+ ".webp")))
  = String "-" (pretty w +:+ ".webp").
Proof.
  rewrite split_absent; [reflexivity|].
  cbn [contains]. rewrite contains_app, pretty_Z_no_slash. reflexivity.
Qed.

Lemma webp_path_differs (job : ImageJob) (w1 w2 : Z) :
  w1 <> w2 -> webp_path job w1 <> webp_path job w2.
Proof.
  intros Hne. unfold webp_path.
  change (base_name job +:+ "-" +:+ pretty w1 +:+ ".webp")
    with (base_name job +:+ String "-" (pretty w1 +:+ ".webp")).
  change (base_name job +:+ "-" +:+ pretty w2 +:+ ".webp")
    with (base_name job +:+ String "-" (pretty w2 +:+ ".webp")).
  apply joinpath_differs; try reflexivity; rewrite ?webp_tail_first;
    try discriminate.
  intros H. injection H as H. apply append_inj_r in H.
  now apply (inj pretty) in H.
Qed.

(** X3. No two outputs of a job share a file: derivatives of different
    widths have different paths, and none of them is the PNG copy or the
    archive, whatever the base name and the destination directory. *)
Theorem output_paths_never_collide (job : ImageJob) :
  (forall w1 w2, webp_path job w1 = webp_path job w2 -> w1 = w2) /\
  (forall w, webp_path job w <> png_path job) /\
  (forall w, webp_path job w <> original_path job) /\
  png_path job <> original_path job.
Proof.
  split; [|split; [|split]].
  - intros w1 w2 Heq. destruct (Z.eq_dec w1 w2) as [|Hne]; [assumption|].
    now destruct (webp_path_differs job w1 w2 Hne).
  - intros w. unfold webp_path, png_path.
    change (base_name job +:+ "-" +:+ pretty w +:+ ".webp")
      with (base_name job +:+ String "-" (pretty w +:+ ".webp")).
    change (base_name job +:+ ".png") with (base_name job +:+ String "." "png").
    apply joinpath_differs; try reflexivity; rewrite ?webp_tail_first;
      discriminate.
  - intros w. unfold webp_path, original_path.
    change (base_name job +:+ "-" +:+ pretty w +:+ ".webp")
      with (base_name job +:+ String "-" (pretty w +:+ ".webp")).
    change (base_name job +:+ ".orig." +:+ original_ext (url job))
      with (base_name job
              +:+ String "." (String "o" ("rig." +:+ original_ext (url job)))).
    apply joinpath_differs; try reflexivity; rewrite ?webp_tail_first;
      try discriminate.
    + rewrite !first_split_cons. cbn. discriminate.
    + rewrite !first_split_cons. cbn. discriminate.
  - unfold png_path, original_path.
    change (base_name job +:+ ".png") with (base_name job +:+ String "." "png").
    change (base_name job +:+ ".orig." +:+ original_ext (url job))
      with (base_name job
              +:+ String "." (String "o" ("rig." +:+ original_ext (url job)))).
    apply joinpath_differs; try reflexivity; try discriminate.
    + rewrite !first_split_cons. cbn. discriminate.
    + rewrite !first_split_cons. cbn. discriminate.
Qed.

(** A name without a slash, neither empty nor a single dot, is joined as
    one component. *)
Lemma joinpath_plain d name :
  contains "/" name = false -> keeps name = true ->
  d // name = mkPath (root d) (parts d ++ [name]).
Proof.
  intros Hslash Hk. destruct name as [|c r]; [discriminate|].
  cbn [contains] in Hslash. apply orb_false_iff in Hslash as [Hc Hr].
  rewrite joinpath_relative by exact Hc.
  unfold parse_parts. rewrite split_absent by (cbn [contains]; now rewrite Hc, Hr).
  cbn [List.filter]. now rewrite Hk.
Qed.

Lemma parent_of_child d name :
  parent (mkPath (root d) (parts d ++ [name])) = d.
Proof. unfold parent. cbn [root parts]. rewrite removelast_last. now destruct d. Qed.

(** X9. With a base name that holds no slash, the PNG copy and every
    derivative are entries of the destination directory itself, named
    [<base>.png] and [<base>-<w>.webp]; so is the archive,
    [<base>.orig.<ext>], when the URL's extension holds no slash. The
    directory [encode_webp] creates is then the destination directory. *)
Theorem outputs_are_entries_of_out_dir (job : ImageJob) :
  contains "/" (base_name job) = false ->
  let d := out_dir job in
  png_path job = mkPath (root d) (parts d ++ [base_name job +:+ ".png"]) /\
  (forall w,
     webp_path job w
     = mkPath (root d)
         (parts d ++ [base_name job +:+ "-" +:+ pretty w +:+ ".webp"]) /\
     parent (webp_path job w) = d) /\
  (contains "/" (original_ext (url job)) = false ->
   original_path job
   = mkPath (root d)
       (parts d ++ [base_name job +:+ ".orig." +:+ original_ext (url job)])).
Proof.
  intros Hbase d. split; [|split].
  - unfold png_path. apply joinpath_plain.
    + rewrite contains_app, Hbase. reflexivity.
    + apply keeps_glued; discriminate.
  - intros w.
    assert (Hp : webp_path job w
                 = mkPath (root d)
                     (parts d ++ [base_name job +:+ "-" +:+ pretty w +:+ ".webp"])).
    { unfold webp_path. apply joinpath_plain.
      - rewrite contains_app, Hbase.
        change ("-" +:+ pretty w +:+ ".webp")
          with (String "-" (pretty w +:+ ".webp")).
        cbn [contains orb].
        rewrite contains_app, pretty_Z_no_slash. reflexivity.
      - apply keeps_glued; discriminate. }
    split; [exact Hp|]. rewrite Hp. apply parent_of_child.
  - intros Hext. unfold original_path. apply joinpath_plain.
    + rewrite contains_app, Hbase, contains_app, Hext. reflexivity.
    + apply keeps_glued; discriminate.
Qed.

End Names.

(* ===================================================================== *)
(** ** Further properties: the extension and the scaling *)
(* ===================================================================== *)

Section ExtensionShape.

Import Str StrFacts PurePath PathFacts.

Lemma strip_clean u :
  contains "?" u = false -> contains "#" u = false ->
  strip_query_fragment u = u.
Proof.
  induction u as [|c u IH]; [reflexivity|]. cbn [contains strip_query_fragment].
  intros Hq Hf. apply orb_false_iff in Hq as [Hq Hq'].
  apply orb_false_iff in Hf as [Hf Hf']. rewrite Hq, Hf. cbn [orb].
  now rewrite IH.
Qed.

Lemma strip_cut u c t :
  contains "?" u = false -> contains "#" u = false ->
  (c = "?" \/ c = "#")%char ->
  strip_query_fragment (u +:+ String c t) = u.
Proof.
  intros Hq Hf Hc. induction u as [|d u IH].
  - cbn. destruct Hc as [-> | ->]; reflexivity.
  - cbn [contains] in Hq, Hf.
    apply orb_false_iff in Hq as [Hq Hq'].
    apply orb_false_iff in Hf as [Hf Hf'].
    change (String d u +:+ String c t) with (String d (u +:+ String c t)).
    cbn [strip_query_fragment]. rewrite Hq, Hf. cbn [orb].
    now rewrite IH.
Qed.

(** X7. Whatever follows a question mark or a hash sign plays no part in
    the archive extension. *)
Theorem original_ext_ignores_query_and_fragment (u t : string) :
  contains "?" u = false -> contains "#" u = false ->
  original_ext (u +:+ "?" +:+ t) = original_ext u /\
  original_ext (u +:+ "#" +:+ t) = original_ext u.
Proof.
  intros Hq Hf. rewrite !original_ext_after_last.
  change (u +:+ "?" +:+ t) with (u +:+ String "?" t).
  change (u +:+ "#" +:+ t) with (u +:+ String "#" t).
  rewrite !strip_cut by auto. now rewrite strip_clean.
Qed.











End ExtensionShape.

Section Scaling.

Context {Pix : Type} (E : Env Pix).

(** X10. A bitmap of width zero cannot be scaled: asked for any other
    width, [resize_to_width] raises [ZeroDivisionError] before Pillow's
    resampler is reached, whatever the height. *)
Theorem resize_zero_width_raises (img : Image Pix) (w : Z) :
  width img = 0 -> w <> 0 ->
  resize_to_width E img w = Raise (mkExc "ZeroDivisionError" "division by zero").
Proof.
  intros HW Hw. unfold resize_to_width, scaled_height.
  rewrite HW. apply Z.eqb_neq in Hw. rewrite Z.eqb_sym in Hw. rewrite Hw.
  reflexivity.
Qed.

End Scaling.

(* ===================================================================== *)
(** ** Further properties: what a job writes *)
(* ===================================================================== *)

Section JobEffects.

Context {Pix : Type} (E : Env Pix).
Import Str StrFacts PurePath PathFacts.

(** X1. When the download fails the job fails with the very exception of
    the transport, and leaves no trace but its announcement: no file, no
    directory, no line on the error stream. *)
Theorem fetch_failure_leaves_no_trace job σ e :
  urlopen_read E (announced job σ) (url job) = Raise e ->
  exists σ',
    process_job E job σ = (Raise e, σ') /\
    files σ' = files σ /\ dirs σ' = dirs σ /\
    stdout σ' = stdout σ ++ [announcement job] /\
    stderr σ' = stderr σ.
Proof.
  intros Hnet. exists (announced job σ).
  split; [|now repeat split].
  unfold process_job. unfold bind at 1. cbn [print].
  unfold bind at 1, download_bytes at 1.
  unfold announced in Hnet. cbn [print snd] in Hnet. now rewrite Hnet.
Qed.








(** **** The PNG branch *)

Lemma png_branch job blob σ :
  format job = "png" ->
  write_fault E σ (png_path job) = None ->
  transcode E job blob σ =
  match relative_to (png_path job) (ROOT E) with
  | Ok rel =>
      (Ok tt, mkWorld (<[png_path job := blob]> (files σ)) (dirs σ)
                (stdout σ ++ ["  -> " +:+ to_str rel]) (stderr σ))
  | Raise e =>
      (Raise e, mkWorld (<[png_path job := blob]> (files σ)) (dirs σ)
                  (stdout σ) (stderr σ))
  end.
Proof.
  intros Hfmt Hw. unfold transcode.
  apply String.eqb_eq in Hfmt. rewrite Hfmt.
  unfold bind at 1, write_bytes. rewrite Hw.
  unfold report, bind, lift.
  destruct (relative_to (png_path job) (ROOT E)); reflexivity.
Qed.

(** X5. A PNG job copies and does nothing else: when the archive and the
    copy are written and the copy lies below [ROOT], the job ends well,
    the two files hold exactly the fetched bytes, nothing else changes,
    and the copy is reported. Widths, quality and the decoder play no
    part. *)
Theorem png_job_copies_source job σ blob p σ2 rel :
  format job = "png" ->
  urlopen_read E (announced job σ) (url job) = Ok blob ->
  save_original E job blob (announced job σ) = (Ok p, σ2) ->
  write_fault E σ2 (png_path job) = None ->
  relative_to (png_path job) (ROOT E) = Ok rel ->
  exists σ',
    process_job E job σ = (Ok tt, σ') /\
    files σ' = <[png_path job := blob]>
                 (<[original_path job := blob]> (files σ)) /\
    stdout σ' = stdout σ ++ [announcement job; "  -> " +:+ to_str rel] /\
    stderr σ' = stderr σ.
Proof.
  intros Hfmt Hnet Hsave Hw Hrel.
  rewrite (process_job_unfold E job σ blob Hnet).
  unfold bind at 1. rewrite Hsave.
  destruct (save_original_ok E _ _ _ _ _ Hsave) as (_ & Hfiles & Hout & Herr).
  rewrite (png_branch job blob σ2 Hfmt Hw), Hrel.
  eexists. split; [reflexivity|]. cbn [files stdout stderr].
  rewrite Hfiles, Hout, Herr. split; [reflexivity|]. split; [|reflexivity].
  unfold announced, announcement. cbn [print snd stdout].
  now rewrite <- app_assoc.
Qed.

(** X6. A PNG job whose destination is not below [ROOT] fails only after
    the work is done: the archive and the copy are both written, then the
    report raises [ValueError] and the job counts as failed. *)
Theorem png_job_outside_root_fails_after_writing job σ blob p σ2 e :
  format job = "png" ->
  urlopen_read E (announced job σ) (url job) = Ok blob ->
  save_original E job blob (announced job σ) = (Ok p, σ2) ->
  write_fault E σ2 (png_path job) = None ->
  relative_to (png_path job) (ROOT E) = Raise e ->
  exists σ',
    process_job E job σ = (Raise e, σ') /\
    exc_type e = "ValueError" /\
    files σ' !! original_path job = Some blob /\
    files σ' !! png_path job = Some blob /\
    stdout σ' = stdout σ ++ [announcement job].
Proof.
  intros Hfmt Hnet Hsave Hw Hrel.
  rewrite (process_job_unfold E job σ blob Hnet).
  unfold bind at 1. rewrite Hsave.
  destruct (save_original_ok E _ _ _ _ _ Hsave) as (_ & Hfiles & Hout & Herr).
  rewrite (png_branch job blob σ2 Hfmt Hw), Hrel.
  eexists. split; [reflexivity|]. cbn [files stdout].
  split; [|split; [|split]].
  - unfold relative_to in Hrel.
    destruct (_ && _); [discriminate|]. now injection Hrel as <-.
  - rewrite lookup_insert_ne by apply png_path_not_original.
    rewrite Hfiles. apply lookup_insert_eq.
  - apply lookup_insert_eq.
  - exact Hout.
Qed.

End JobEffects.

(* ===================================================================== *)
(** ** Further properties: the width loop *)
(* ===================================================================== *)

Section WidthLoop.

Context {Pix : Type} (E : Env Pix).
Import Str StrFacts PurePath PathFacts.

(** One turn of the loop on a disk that does not refuse. *)
Lemma each_width_step job im w rest σ data rel :
  cooperative_disk E ->
  derivative E job im w = Ok data ->
  relative_to (webp_path job w) (ROOT E) = Ok rel ->
  each_width E job im (w :: rest) σ =
  each_width E job im rest
    (mkWorld (<[webp_path job w := data]> (files σ))
             (list_to_set (lineage (parent (webp_path job w))) ∪ dirs σ)
             (stdout σ ++ [report_line E (webp_path job w)]) (stderr σ)).
Proof.
  intros [Hmk Hwr] Hder Hrel. unfold derivative in Hder.
  destruct (resize_to_width E im w) as [r|e] eqn:Hr; [|discriminate].
  cbn [rbind] in Hder.
  cbn [each_width]. unfold bind at 1, lift at 1. rewrite Hr.
  unfold bind at 1. unfold encode_webp, bind at 1, mkdir. rewrite Hmk.
  unfold Image_save. rewrite Hwr, Hder.
  unfold bind at 1. unfold report, bind at 1, lift at 1. rewrite Hrel.
  cbn [print]. unfold report_line. rewrite Hrel. reflexivity.
Qed.

(** The loop over a concatenation is the loop over the first part
    followed, unless it raised, by the loop over the second. *)
Lemma each_width_app job im ws1 ws2 σ :
  each_width E job im (ws1 ++ ws2) σ =
  match each_width E job im ws1 σ with
  | (Ok _, σ1) => each_width E job im ws2 σ1
  | (Raise e, σ1) => (Raise e, σ1)
  end.
Proof.
  revert σ. induction ws1 as [|w ws1 IH]; intros σ.
  - reflexivity.
  - cbn [app each_width]. unfold bind.
    destruct (lift (resize_to_width E im w) σ) as [[r|e] σa]; [|reflexivity].
    destruct (encode_webp E r (webp_path job w) (quality job) σa)
      as [[u|e] σb]; [|reflexivity].
    destruct (report E (webp_path job w) σb) as [[u'|e] σc]; [|reflexivity].
    apply IH.
Qed.

(** The loop on a disk that does not refuse, for widths whose derivative
    can be made and whose file lies below [ROOT]. *)
Lemma each_width_runs job im ws σ :
  cooperative_disk E ->
  Forall (fun w => exists data, derivative E job im w = Ok data) ws ->
  Forall (fun w => exists rel,
            relative_to (webp_path job w) (ROOT E) = Ok rel) ws ->
  exists σ',
    each_width E job im ws σ = (Ok tt, σ') /\
    (forall w data, w ∈ ws -> derivative E job im w = Ok data ->
       files σ' !! webp_path job w = Some data) /\
    (forall p, Forall (fun w => webp_path job w <> p) ws ->
       files σ' !! p = files σ !! p) /\
    stdout σ' = stdout σ ++ map (fun w => report_line E (webp_path job w)) ws /\
    stderr σ' = stderr σ.
Proof.
  intros Hdisk Hder Hrel. revert σ.
  induction ws as [|w ws IH]; intros σ.
  - exists σ. split; [reflexivity|]. split.
    { intros w data Hin. now apply elem_of_nil in Hin. }
    split; [reflexivity|]. split; [now rewrite app_nil_r|reflexivity].
  - apply Forall_cons in Hder as [[data Hdata] Hder].
    apply Forall_cons in Hrel as [[rel Hrelw] Hrel].
    rewrite (each_width_step job im w ws σ data rel Hdisk Hdata Hrelw).
    destruct (IH Hder Hrel
                (mkWorld (<[webp_path job w := data]> (files σ))
                   (list_to_set (lineage (parent (webp_path job w))) ∪ dirs σ)
                   (stdout σ ++ [report_line E (webp_path job w)]) (stderr σ)))
      as (σ' & Hrun & Hfiles & Hframe & Hout & Herr).
    exists σ'. split; [exact Hrun|]. cbn [files stdout stderr] in *.
    split; [|split; [|split]].
    + intros w' data' Hin Hd'.
      destruct (decide (w' ∈ ws)) as [Hin'|Hnot]; [now apply Hfiles|].
      apply elem_of_cons in Hin as [->|Hin]; [|contradiction].
      rewrite Hframe.
      * rewrite lookup_insert_eq. congruence.
      * apply Forall_forall. intros w'' Hw''.
        apply webp_path_differs. intros ->. contradiction.
    + intros p Hp. apply Forall_cons in Hp as [Hpw Hp].
      rewrite Hframe by exact Hp. now apply lookup_insert_ne.
    + rewrite Hout. cbn [map]. now rewrite <- app_assoc.
    + exact Herr.
Qed.

Lemma save_original_runs job blob σ :
  cooperative_disk E ->
  save_original E job blob σ =
  (Ok (original_path job),
   mkWorld (<[original_path job := blob]> (files σ))
           (list_to_set (lineage (out_dir job)) ∪ dirs σ)
           (stdout σ) (stderr σ)).
Proof.
  intros [Hmk Hwr]. unfold save_original, bind, mkdir, write_bytes, ret.
  now rewrite Hmk, Hwr.
Qed.

Lemma all_differ_from_original job ws :
  Forall (fun w => webp_path job w <> original_path job) ws.
Proof. apply Forall_forall. intros w _. apply webp_path_not_original. Qed.

(** X4. A WebP job on a disk that does not refuse, with a source that
    decodes and normalises, and widths that can all be resized, encoded
    and reported: the job ends well; the archive holds the fetched bytes;
    for every width the file [<base>-<w>.webp] holds the encoding of the
    normalised bitmap resized to that width, each derivative being made
    from that same bitmap and not from an earlier derivative; one line is
    printed per width, in the order of the list. *)
Theorem webp_job_writes_every_width job σ blob im0 im :
  format job <> "png" ->
  cooperative_disk E ->
  urlopen_read E (announced job σ) (url job) = Ok blob ->
  Image_open E blob = Ok im0 ->
  normalise_mode E im0 = Ok im ->
  Forall (fun w => exists data, derivative E job im w = Ok data) (widths job) ->
  Forall (fun w => exists rel,
            relative_to (webp_path job w) (ROOT E) = Ok rel) (widths job) ->
  exists σ',
    process_job E job σ = (Ok tt, σ') /\
    files σ' !! original_path job = Some blob /\
    (forall w data, w ∈ widths job -> derivative E job im w = Ok data ->
       files σ' !! webp_path job w = Some data) /\
    stdout σ' = stdout σ
                  ++ announcement job
                       :: map (fun w => report_line E (webp_path job w))
                            (widths job) /\
    stderr σ' = stderr σ.
Proof.
  intros Hfmt Hdisk Hnet Hopen Hnorm Hder Hrel.
  rewrite (process_job_unfold E job σ blob Hnet).
  unfold bind at 1. rewrite (save_original_runs job blob _ Hdisk).
  rewrite (transcode_webp E job blob im0 _ Hfmt Hopen).
  unfold bind at 1, lift at 1. rewrite Hnorm.
  destruct (each_width_runs job im (widths job)
              (mkWorld (<[original_path job := blob]> (files (announced job σ)))
                 (list_to_set (lineage (out_dir job)) ∪ dirs (announced job σ))
                 (stdout (announced job σ)) (stderr (announced job σ)))
              Hdisk Hder Hrel)
    as (σ' & Hrun & Hfiles & Hframe & Hout & Herr).
  exists σ'. split; [exact Hrun|]. cbn [files stdout stderr] in *.
  split; [|split; [exact Hfiles|split; [|exact Herr]]].
  - rewrite Hframe by apply all_differ_from_original. apply lookup_insert_eq.
  - rewrite Hout. unfold announced, announcement. cbn [print snd stdout].
    now rewrite <- app_assoc.
Qed.

(** X11. Nothing is cleaned up when a width fails. If the widths before
    it went through and the resize for the next one raises, the job
    raises that exception; the archive and the derivatives made so far
    stay on disk; no other file has changed, so nothing was written for
    the failing width nor for the widths after it. *)
Theorem failed_width_keeps_earlier_derivatives
    job σ blob im0 im made w rest e :
  format job <> "png" ->
  widths job = made ++ w :: rest ->
  cooperative_disk E ->
  urlopen_read E (announced job σ) (url job) = Ok blob ->
  Image_open E blob = Ok im0 ->
  normalise_mode E im0 = Ok im ->
  Forall (fun w => exists data, derivative E job im w = Ok data) made ->
  Forall (fun w => exists rel,
            relative_to (webp_path job w) (ROOT E) = Ok rel) made ->
  resize_to_width E im w = Raise e ->
  exists σ',
    process_job E job σ = (Raise e, σ') /\
    files σ' !! original_path job = Some blob /\
    (forall w' data, w' ∈ made -> derivative E job im w' = Ok data ->
       files σ' !! webp_path job w' = Some data) /\
    (forall p, p <> original_path job ->
       Forall (fun w' => webp_path job w' <> p) made ->
       files σ' !! p = files σ !! p) /\
    stdout σ' = stdout σ
                  ++ announcement job
                       :: map (fun w' => report_line E (webp_path job w')) made.
Proof.
  intros Hfmt Hws Hdisk Hnet Hopen Hnorm Hder Hrel Hfail.
  rewrite (process_job_unfold E job σ blob Hnet).
  unfold bind at 1. rewrite (save_original_runs job blob _ Hdisk).
  rewrite (transcode_webp E job blob im0 _ Hfmt Hopen).
  unfold bind at 1, lift at 1. rewrite Hnorm, Hws, each_width_app.
  destruct (each_width_runs job im made
              (mkWorld (<[original_path job := blob]> (files (announced job σ)))
                 (list_to_set (lineage (out_dir job)) ∪ dirs (announced job σ))
                 (stdout (announced job σ)) (stderr (announced job σ)))
              Hdisk Hder Hrel)
    as (σ' & Hrun & Hfiles & Hframe & Hout & Herr).
  rewrite Hrun, (resize_failure_surfaces E job im w rest σ' e Hfail).
  exists σ'. split; [reflexivity|]. cbn [files stdout stderr] in *.
  split; [|split; [exact Hfiles|split]].
  - rewrite Hframe by apply all_differ_from_original. apply lookup_insert_eq.
  - intros p Hp Hmade. rewrite Hframe by exact Hmade.
    rewrite lookup_insert_ne by congruence. reflexivity.
  - rewrite Hout. unfold announced, announcement. cbn [print snd stdout].
    now rewrite <- app_assoc.
Qed.

End WidthLoop.

(* ===================================================================== *)
(** ** Further properties: the order of the run *)
(* ===================================================================== *)

Section Order.

Context {Pix : Type} (E : Env Pix).



End Order.

(* ===================================================================== *)
(** ** Further properties: bitmaps on their way to the encoder *)
(* ===================================================================== *)

Section Bitmaps.

Context {Pix : Type} (E : Env Pix).

(** X14. Whatever [resize_to_width] returns is exactly as wide as asked,
    in the mode and with the bands of the source; and unless it is the
    source itself, it is at least one pixel high. *)
Theorem resize_result_shape (img r : Image Pix) (w : Z) :
  resize_to_width E img w = Ok r ->
  width r = w /\ mode r = mode img /\ bands r = bands img /\
  (r = img \/ 1 <= height r).
Proof.
  unfold resize_to_width. destruct (Z.eqb_spec (width img) w) as [Hw|Hw].
  - intros H. injection H as <-. auto.
  - unfold scaled_height.
    destruct (PyNum.int_true_divide w (width img)) as [ratio|e]; [|discriminate].
    cbn [rbind].
    destruct (PyNum.int_mul_float (height img) ratio) as [x|e]; [|discriminate].
    cbn [rbind].
    destruct (PyNum.round x) as [n|e]; [|discriminate].
    cbn [rbind]. unfold Image_resize.
    destruct (lanczos E img w (Z.max 1 n)) as [px|e]; [|discriminate].
    cbn [rbind]. intros H. injection H as <-. cbn.
    repeat split. right. lia.
Qed.

(** X15. Normalising twice is normalising once: a bitmap that came out of
    the mode normalisation goes through it unchanged, without a further
    conversion. *)
Theorem normalise_mode_idempotent (im im' : Image Pix) :
  normalise_mode E im = Ok im' -> normalise_mode E im' = Ok im'.
Proof.
  intros H. apply normalise_mode_keeps.
  now destruct (normalise_mode_ok E im im' H) as [Hm _].
Qed.

(** X16. The encoder only ever sees RGB or RGBA bitmaps: whatever the
    mode of the decoded source, the bitmap resized for a width from the
    normalised source is in one of the two modes. *)
Theorem encoder_sees_rgb_or_rgba (im0 im r : Image Pix) (w : Z) :
  normalise_mode E im0 = Ok im ->
  resize_to_width E im w = Ok r ->
  mode r = "RGB" \/ mode r = "RGBA".
Proof.
  intros Hnorm Hr.
  destruct (normalise_mode_ok E im0 im Hnorm) as [Hm _].
  unfold resize_to_width in Hr. destruct (width im =? w).
  - now injection Hr as <-.
  - destruct (scaled_height im w) as [h|e]; [|discriminate].
    cbn [rbind] in Hr. unfold Image_resize in Hr.
    destruct (lanczos E im w h) as [px|e]; [|discriminate].
    cbn [rbind] in Hr. now injection Hr as <-.
Qed.

End Bitmaps.


(* ===================================================================== *)
(** ** The further properties at work on concrete runs *)
(* ===================================================================== *)

Lemma plain_disk_cooperates : cooperative_disk plain_env.
Proof. split; intros; reflexivity. Qed.

(** The fourth listed job on the network that has lost its asset. *)
Lemma fetch_failure_leaves_no_trace_witness :
  let job := nth 3 (jobs flaky_env) no_job in
  exists σ',
    process_job flaky_env job seeded_world = (Raise not_found, σ') /\
    files σ' = files seeded_world /\ dirs σ' = dirs seeded_world /\
    stdout σ' = stdout seeded_world ++ [announcement job] /\
    stderr σ' = stderr seeded_world.
Proof.
  cbv zeta.
  apply (fetch_failure_leaves_no_trace flaky_env
           (nth 3 (jobs flaky_env) no_job) seeded_world not_found).
  vm_compute. reflexivity.
Defined.



(** A WebP job at two widths from a 1920 x 1080 source. *)
Lemma webp_job_writes_every_width_witness :
  let job := job_of "https://example.com/media/hero.webp"
               (OUT_IMAGES plain_env) "hero" [640; 960] 76 in
  let im := demo_image 1920 1080 "RGB" ["R"; "G"; "B"] in
  exists σ',
    process_job plain_env job empty_world = (Ok tt, σ') /\
    files σ' !! original_path job = Some demo_blob /\
    (forall w data, w ∈ widths job -> derivative plain_env job im w = Ok data ->
       files σ' !! webp_path job w = Some data) /\
    stdout σ' = stdout empty_world
                  ++ announcement job
                       :: map (fun w => report_line plain_env (webp_path job w))
                            (widths job) /\
    stderr σ' = stderr empty_world.
Proof.
  cbv zeta.
  apply (webp_job_writes_every_width plain_env
           (job_of "https://example.com/media/hero.webp"
              (OUT_IMAGES plain_env) "hero" [640; 960] 76)
           empty_world demo_blob
           (demo_image 1920 1080 "RGB" ["R"; "G"; "B"])
           (demo_image 1920 1080 "RGB" ["R"; "G"; "B"])).
  - discriminate.
  - exact plain_disk_cooperates.
  - reflexivity.
  - reflexivity.
  - reflexivity.
  - repeat constructor; eexists; vm_compute; reflexivity.
  - repeat constructor; eexists; vm_compute; reflexivity.
Defined.

(** Widths 640, 0 and 960: Pillow refuses the zero width. *)
Lemma failed_width_keeps_earlier_derivatives_witness :
  let job := job_of "https://example.com/media/hero.webp"
               (OUT_IMAGES plain_env) "hero" [640; 0; 960] 76 in
  let im := demo_image 1920 1080 "RGB" ["R"; "G"; "B"] in
  let e := mkExc "ValueError" "height and width must be > 0" in
  exists σ',
    process_job plain_env job seeded_world = (Raise e, σ') /\
    files σ' !! original_path job = Some demo_blob /\
    (forall w' data, w' ∈ [640] -> derivative plain_env job im w' = Ok data ->
       files σ' !! webp_path job w' = Some data) /\
    (forall p, p <> original_path job ->
       Forall (fun w' => webp_path job w' <> p) [640] ->
       files σ' !! p = files seeded_world !! p) /\
    stdout σ' = stdout seeded_world
                  ++ announcement job
                       :: map (fun w' => report_line plain_env (webp_path job w'))
                            [640].
Proof.
  cbv zeta.
  apply (failed_width_keeps_earlier_derivatives plain_env
           (job_of "https://example.com/media/hero.webp"
              (OUT_IMAGES plain_env) "hero" [640; 0; 960] 76)
           seeded_world demo_blob
           (demo_image 1920 1080 "RGB" ["R"; "G"; "B"])
           (demo_image 1920 1080 "RGB" ["R"; "G"; "B"])
           [640] 0 [960]).
  - discriminate.
  - reflexivity.
  - exact plain_disk_cooperates.
  - reflexivity.
  - reflexivity.
  - reflexivity.
  - repeat constructor; eexists; vm_compute; reflexivity.
  - repeat constructor; eexists; vm_compute; reflexivity.
  - vm_compute. reflexivity.
Defined.

(** An icon taken as it is. *)
Lemma png_job_copies_source_witness :
  let job := mkImageJob "https://example.com/icons/star.png"
               (OUT_ICONS plain_env) "star" [64; 128] "png" 80 in
  exists σ',
    process_job plain_env job empty_world = (Ok tt, σ') /\
    files σ' = <[png_path job := demo_blob]>
                 (<[original_path job := demo_blob]> (files empty_world)) /\
    stdout σ' = stdout empty_world
                  ++ [announcement job;
                      "  -> " +:+ PurePath.to_str
                                    (mkPath "" ["assets"; "icons"; "star.png"])] /\
    stderr σ' = stderr empty_world.
Proof.
  cbv zeta.
  apply (png_job_copies_source plain_env
           (mkImageJob "https://example.com/icons/star.png"
              (OUT_ICONS plain_env) "star" [64; 128] "png" 80)
           empty_world demo_blob _ _
           (mkPath "" ["assets"; "icons"; "star.png"])
           eq_refl eq_refl eq_refl eq_refl).
  vm_compute. reflexivity.
Defined.

(** The same icon sent to a directory outside the project. *)
Lemma png_job_outside_root_fails_after_writing_witness :
  let job := mkImageJob "https://example.com/icons/star.png"
               (mkPath "/" ["tmp"; "out"]) "star" [64; 128] "png" 80 in
  exists e σ',
    process_job plain_env job empty_world = (Raise e, σ') /\
    exc_type e = "ValueError" /\
    files σ' !! original_path job = Some demo_blob /\
    files σ' !! png_path job = Some demo_blob /\
    stdout σ' = stdout empty_world ++ [announcement job].
Proof.
  cbv zeta. eexists.
  apply (png_job_outside_root_fails_after_writing plain_env
           (mkImageJob "https://example.com/icons/star.png"
              (mkPath "/" ["tmp"; "out"]) "star" [64; 128] "png" 80)
           empty_world demo_blob _ _ _ eq_refl eq_refl eq_refl eq_refl).
  vm_compute. reflexivity.
Defined.

Lemma original_ext_ignores_query_and_fragment_witness :
  original_ext ("https://example.com/a/photo.JPG" +:+ "?" +:+ "v=2.1#top")
    = original_ext "https://example.com/a/photo.JPG" /\
  original_ext ("https://example.com/a/photo.JPG" +:+ "#" +:+ "v=2.1#top")
    = original_ext "https://example.com/a/photo.JPG".
Proof.
  apply (original_ext_ignores_query_and_fragment
           "https://example.com/a/photo.JPG" "v=2.1#top"); reflexivity.
Defined.

Lemma outputs_are_entries_of_out_dir_witness :
  let job := nth 0 (jobs plain_env) no_job in
  let d := out_dir job in
  png_path job = mkPath (root d) (parts d ++ [base_name job +:+ ".png"]) /\
  (forall w,
     webp_path job w
     = mkPath (root d)
         (parts d ++ [base_name job +:+ "-" +:+ pretty w +:+ ".webp"]) /\
     PurePath.parent (webp_path job w) = d) /\
  (Str.contains "/" (original_ext (url job)) = false ->
   original_path job
   = mkPath (root d)
       (parts d ++ [base_name job +:+ ".orig." +:+ original_ext (url job)])).
Proof.
  cbv zeta.
  apply (outputs_are_entries_of_out_dir (nth 0 (jobs plain_env) no_job)).
  reflexivity.
Defined.

Lemma resize_zero_width_raises_witness :
  resize_to_width plain_env (demo_image 0 5 "RGB" ["R"; "G"; "B"]) 64
  = Raise (mkExc "ZeroDivisionError" "division by zero").
Proof.
  apply resize_zero_width_raises; [reflexivity|discriminate].
Defined.

Lemma resize_result_shape_witness :
  let img := demo_image 1920 1080 "RGBA" ["R"; "G"; "B"; "A"] in
  let r := demo_image 960 540 "RGBA" ["R"; "G"; "B"; "A"] in
  width r = 960 /\ mode r = mode img /\ bands r = bands img /\
  (r = img \/ 1 <= height r).
Proof.
  cbv zeta.
  apply (resize_result_shape plain_env
           (demo_image 1920 1080 "RGBA" ["R"; "G"; "B"; "A"])
           (demo_image 960 540 "RGBA" ["R"; "G"; "B"; "A"]) 960).
  vm_compute. reflexivity.
Defined.

Lemma normalise_mode_idempotent_witness :
  normalise_mode plain_env (demo_image 8 8 "RGBA" ["R"; "G"; "B"; "A"])
  = Ok (demo_image 8 8 "RGBA" ["R"; "G"; "B"; "A"]).
Proof.
  apply (normalise_mode_idempotent plain_env (demo_image 8 8 "PA" ["P"; "A"])).
  vm_compute. reflexivity.
Defined.

Lemma encoder_sees_rgb_or_rgba_witness :
  mode (demo_image 64 64 "RGBA" ["R"; "G"; "B"; "A"]) = "RGB" \/
  mode (demo_image 64 64 "RGBA" ["R"; "G"; "B"; "A"]) = "RGBA".
Proof.
  apply (encoder_sees_rgb_or_rgba plain_env
           (demo_image 100 100 "PA" ["P"; "A"])
           (demo_image 100 100 "RGBA" ["R"; "G"; "B"; "A"])
           (demo_image 64 64 "RGBA" ["R"; "G"; "B"; "A"]) 64);
    vm_compute; reflexivity.
Defined.
